(** * openWakeWord: the streaming model class ([openwakeword/model.py])

    A shallow embedding of [Model] -- model registration, the per-label
    prediction buffer, cold-start zeroing, patience/threshold debouncing,
    [predict] and [predict_clip] -- together with the properties of the
    design document that are about this class.

    Python values are embedded as follows.
    - [str] is [string]; character-level operations ([split], [strip])
      work on [list ascii].
    - A [dict] whose iteration order is observable ([self.models],
      [self.class_mapping], [predictions], [timing_dict]) is an
      insertion-ordered association list ([odict]); a [dict] that is only
      queried by key ([patience], [threshold]) and the [defaultdict] of
      buffers are [gmap string _].
    - [deque(maxlen=30)] is a [list], oldest entry first.
    - Exceptions are values of [exn]; a call that may raise returns
      [exn + A], and the instance state survives a raise.
    - Floating point numbers, the feature extractor, the ONNX sessions,
      [json.loads], [int] and the wall clock are external: they are the
      fields of the class [Runtime]. *)

From Stdlib Require Import ZArith List Ascii String Bool Lia.
From Stdlib Require Import Floats.PrimFloat Sorting.Sorted.
From stdpp Require Import base option list strings gmap fin_maps.

Local Open Scope string_scope.
Local Open Scope list_scope.
Local Open Scope Z_scope.

(** ** Python built-ins used by the class *)

Module Py.

(** [s.split(sep)] for a one-character separator: the list of fields,
    never empty. *)
Fixpoint split (sep : ascii) (s : list ascii) : list (list ascii) :=
  match s with
  | [] => [[]]
  | c :: s' =>
      if Ascii.eqb c sep then [] :: split sep s'
      else match split sep s' with
           | h :: t => (c :: h) :: t
           | [] => [[c]]
           end
  end.

(** [l[-1]] on a list known to be non-empty. *)
Definition last_field (l : list (list ascii)) : list ascii := List.last l [].

Definition in_chars (chars : list ascii) (c : ascii) : bool :=
  existsb (Ascii.eqb c) chars.

(** [s.lstrip(chars)], [s.rstrip(chars)] and [s.strip(chars)]: [chars] is
    a set of characters, not a suffix. *)
Fixpoint lstrip (chars : list ascii) (s : list ascii) : list ascii :=
  match s with
  | [] => []
  | c :: s' => if in_chars chars c then lstrip chars s' else s
  end.

Definition rstrip (chars : list ascii) (s : list ascii) : list ascii :=
  List.rev (lstrip chars (List.rev s)).

Definition strip (chars : list ascii) (s : list ascii) : list ascii :=
  rstrip chars (lstrip chars s).

(** [sub in s] on strings. *)
Fixpoint is_prefix (p s : list ascii) : bool :=
  match p, s with
  | [], _ => true
  | _ :: _, [] => false
  | a :: p', b :: s' => Ascii.eqb a b && is_prefix p' s'
  end.

Fixpoint contains (sub s : list ascii) : bool :=
  is_prefix sub s ||
  match s with
  | [] => false
  | _ :: s' => contains sub s'
  end.

(** [range(start, stop, step)] for [step > 0]; [n] bounds the number of
    elements and is chosen by [range] below. *)
Fixpoint range_from (n : nat) (start stop step : Z) : list Z :=
  match n with
  | O => []
  | S n' => if start <? stop then start :: range_from n' (start + step) stop step
            else []
  end.

Definition range (start stop step : Z) : list Z :=
  range_from (Z.to_nat (stop - start)) start stop step.

(** [a[i]] on a sequence of length [n]: indices [-n .. n-1] are valid,
    negative ones count from the end. *)
Definition index {A} (a : list A) (i : Z) : option A :=
  let n := Z.of_nat (length a) in
  if (0 <=? i) && (i <? n) then nth_error a (Z.to_nat i)
  else if (- n <=? i) && (i <? 0) then nth_error a (Z.to_nat (n + i))
  else None.

(** The bound of a slice clamped as Python does: a negative bound counts
    from the end, and everything is cut to [0 .. n]. *)
Definition clamp (n : nat) (i : Z) : nat :=
  if i <? 0 then Z.to_nat (Z.max 0 (Z.of_nat n + i))
  else Nat.min n (Z.to_nat i).

(** [a[start:]] and [a[start:stop]]. *)
Definition slice_from {A} (a : list A) (start : Z) : list A :=
  drop (clamp (length a) start) a.

Definition slice {A} (a : list A) (start stop : Z) : list A :=
  let lo := clamp (length a) start in
  let hi := clamp (length a) stop in
  take (hi - lo)%nat (drop lo a).

(** [sorted(d.items())] for string keys, as [pprint] orders the entries of
    a dictionary: by key, strings compared character by character. *)
Fixpoint insert_sorted {V} (k : string) (v : V) (items : list (string * V))
  : list (string * V) :=
  match items with
  | [] => [(k, v)]
  | (k', v') :: rest =>
      if String.leb k k' then (k, v) :: items
      else (k', v') :: insert_sorted k v rest
  end.

Definition sorted_items {V} (items : list (string * V)) : list (string * V) :=
  fold_right (fun kv acc => insert_sorted kv.1 kv.2 acc) [] items.

End Py.

(** ** Insertion-ordered dictionaries *)

Definition odict (V : Type) : Type := list (string * V).

Module Dict.
Section Ops.
Context {V : Type}.

(** [d[k] = v]: an existing key keeps its position. *)
Fixpoint set (k : string) (v : V) (d : odict V) : odict V :=
  match d with
  | [] => [(k, v)]
  | (k', v') :: d' =>
      if String.eqb k k' then (k', v) :: d' else (k', v') :: set k v d'
  end.

Definition keys (d : odict V) : list string := map fst d.
Definition values (d : odict V) : list V := map snd d.
End Ops.
End Dict.

(** ** [collections.deque] with [maxlen] *)

Definition maxlen : nat := 30.

(** [d.append(x)]: when the deque is full the oldest entry leaves. *)
Definition deque_append {A} (d : list A) (x : A) : list A :=
  let d' := d ++ [x] in
  drop (length d' - maxlen)%nat d'.

(** ** Exceptions *)

Inductive exn : Type :=
| ValueError
| KeyError
| IndexError
| AttributeError
| JSONDecodeError
| LoadError.

Definition result (A : Type) : Type := (exn + A)%type.

Definition rbind {A B} (r : result A) (k : A -> result B) : result B :=
  match r with
  | inl e => inl e
  | inr a => k a
  end.

Notation "'try' x := r 'in' k" := (rbind r (fun x => k))
  (at level 10, x pattern, r at level 100, k at level 200).

(** ** Methods: state that survives a raise

    A computation on a state [St] returns the state it leaves and either
    the exception raised or the value. *)
Definition M (St A : Type) : Type := St -> St * result A.

Definition ret {St A} (a : A) : M St A := fun s => (s, inr a).

Definition bind {St A B} (c : M St A) (k : A -> M St B) : M St B :=
  fun s => match c s with
           | (s', inr a) => k a s'
           | (s', inl e) => (s', inl e)
           end.

Definition lift {St A} (r : result A) : M St A := fun s => (s, r).

Notation "x <- c ;; k" := (bind c (fun x => k))
  (at level 100, c at next level, right associativity).
Notation "c ;;; k" := (bind c (fun _ => k))
  (at level 100, right associativity).

(** [triple P c Q E]: from a state in [P], [c] returns a value and a state
    in [Q], or raises leaving a state in [E]. *)
Definition triple {St A} (P : St -> Prop) (c : M St A)
  (Q : A -> St -> Prop) (E : exn -> St -> Prop) : Prop :=
  forall s, P s ->
    match c s with
    | (s', inr a) => Q a s'
    | (s', inl e) => E e s'
    end.

(** ** What the class takes from outside *)

(** The label metadata of a model: the model's own name for a one-output
    model, or the decoded JSON object (stringified index to label). *)
Inductive Mapping : Type :=
| MStr (label : string)
| MDict (d : odict string).

Class Runtime : Type := {
  (** Python and numpy floating point numbers: the literal [0.0],
      [x >= y] and [x - y]. *)
  pyfloat : Type;
  fzero : pyfloat;
  fge : pyfloat -> pyfloat -> bool;
  fsub : pyfloat -> pyfloat -> pyfloat;
  (** [time.time()]: the value of the [n]-th reading of the clock. *)
  time_time : nat -> pyfloat;
  (** [openwakeword.utils.AudioFeatures]: the object, [self.preprocessor(x)]
      and [self.preprocessor.get_features(n)]. *)
  AudioFeatures : Type;
  Features : Type;
  preprocessor_call : AudioFeatures -> list Z -> AudioFeatures;
  get_features : AudioFeatures -> Z -> Features;
  (** [onnxruntime]: [InferenceSession(path, ...)], [get_inputs()[0].shape[1]],
      [get_outputs()[0].shape[1]], [get_outputs()[0].name],
      [get_inputs()[0].name], and [run(None, {input_name: features})[0][0]],
      the row of scores. The sessions are those of models whose first input
      and first output have a second dimension, as wake word models have:
      the [IndexError] of a model without is left out. *)
  InferenceSession : Type;
  ort_InferenceSession : string -> result InferenceSession;
  input_shape1 : InferenceSession -> Z;
  output_shape1 : InferenceSession -> Z;
  output_name : InferenceSession -> string;
  input_name : InferenceSession -> string;
  session_run : InferenceSession -> string -> Features -> list pyfloat;
  (** [json.loads] on an output name, and [int] on a key of the result. *)
  json_loads : string -> result (odict string);
  py_int : string -> result Z
}.

Section OpenWakeWord.
Context `{RT : Runtime}.

(** ** The instance *)

(** [self.models], [self.model_inputs], [self.model_outputs],
    [self.class_mapping] and [self.model_input_names] are assigned under the
    same key in the same iteration of [__init__] and never again, so they
    share their keys and order: they are kept as one ordered dictionary of
    records, one field per attribute. *)
Record ModelEntry : Type := mkEntry {
  models : InferenceSession;
  model_inputs : Z;
  model_outputs : Z;
  class_mapping : Mapping;
  model_input_names : string
}.

Record Model : Type := mkModel {
  registry : odict ModelEntry;
  prediction_buffer : gmap string (list pyfloat);
  preprocessor : AudioFeatures
}.

(** [self.prediction_buffer[label]] read on the [defaultdict]: a missing
    label has the empty deque. *)
Definition buffer (self : Model) (label : string) : list pyfloat :=
  default [] (prediction_buffer self !! label).

Definition os_path_sep : ascii := "/"%char.

(** [mdl_path.split(os.path.sep)[-1].strip(".onnx")] *)
Definition mdl_name_of (mdl_path : string) : string :=
  string_of_list_ascii
    (Py.strip (list_ascii_of_string ".onnx")
       (Py.last_field (Py.split os_path_sep (list_ascii_of_string mdl_path)))).

(** The body of the loop of [__init__] for one path. *)
Definition load_model (mdl_path : string) (reg : odict ModelEntry)
  : result (odict ModelEntry) :=
  let mdl_name := mdl_name_of mdl_path in
  try sess := ort_InferenceSession mdl_path in
  let name := output_name sess in
  try mapping :=
    (if Py.contains (list_ascii_of_string "{") (list_ascii_of_string name)
     then try d := json_loads name in inr (MDict d)
     else inr (MStr mdl_name)) in
  inr (Dict.set mdl_name
         {| models := sess;
            model_inputs := input_shape1 sess;
            model_outputs := output_shape1 sess;
            class_mapping := mapping;
            model_input_names := input_name sess |} reg).

Fixpoint load_models (wakeword_model_paths : list string) (reg : odict ModelEntry)
  : result (odict ModelEntry) :=
  match wakeword_model_paths with
  | [] => inr reg
  | mdl_path :: rest =>
      try reg' := load_model mdl_path reg in load_models rest reg'
  end.

(** [__init__]; [pre] is the [AudioFeatures] object built from the keyword
    arguments once the models are loaded (line 73), its construction taken
    to return. *)
Definition Model_init (wakeword_model_paths : list string) (pre : AudioFeatures)
  : result Model :=
  try reg := load_models wakeword_model_paths [] in
  inr {| registry := reg; prediction_buffer := ∅; preprocessor := pre |}.

(** [get_parent_model_from_label]: the loop runs over every model and has
    no [break]. *)
Fixpoint parent_loop (label : string) (entries : odict ModelEntry)
  (parent_model : string) : string :=
  match entries with
  | [] => parent_model
  | (mdl, e) :: rest =>
      parent_loop label rest
        match class_mapping e with
        | MDict d =>
            if existsb (String.eqb label) (Dict.values d) then mdl else parent_model
        | MStr s =>
            if String.eqb label s then s else parent_model
        end
  end.

Definition get_parent_model_from_label (self : Model) (label : string) : string :=
  parent_loop label (registry self) "".

(** [reset] *)
Definition reset (self : Model) : Model :=
  {| registry := registry self;
     prediction_buffer := ∅;
     preprocessor := preprocessor self |}.

(** ** The state of a call

    A method runs on the instance, reads the clock and prints. *)
Record State : Type := mkState {
  self : Model;
  clock : nat;
  stdout : list (odict (odict pyfloat))
}.

Definition get_self : M State Model := fun s => (s, inr (self s)).

Definition put_self (m : Model) : M State unit :=
  fun s => ({| self := m; clock := clock s; stdout := stdout s |}, inr tt).

(** [time.time()] *)
Definition time : M State pyfloat :=
  fun s => ({| self := self s; clock := S (clock s); stdout := stdout s |},
            inr (time_time (clock s))).

(** [if timing: t = time.time()]; without [timing] the variable stays
    unbound and is never read, [fzero] stands for it. *)
Definition stamp (timing : bool) : M State pyfloat :=
  if timing then time else ret fzero.

(** [pprint.PrettyPrinter().pprint(timing_dict)]. The argument here is
    [timing_dict["models"]], the one entry that [timing_dict] has (lines
    115-116); what is printed is the whole dictionary, the keys of each
    dictionary in sorted order. *)
Definition pprint (timing_dict : odict pyfloat) : M State unit :=
  fun s => ({| self := self s; clock := clock s;
               stdout := stdout s
                         ++ [[("models", Py.sorted_items timing_dict)]] |},
            inr tt).

(** ** [predict] *)

(** Lines 138-142: the scores of one model enter [predictions]. *)
Fixpoint assign_classes (prediction : list pyfloat) (items : odict string)
  (predictions : odict pyfloat) : result (odict pyfloat) :=
  match items with
  | [] => inr predictions
  | (int_label, cls) :: rest =>
      try i := py_int int_label in
      try v := from_option inr (inl IndexError) (Py.index prediction i) in
      assign_classes prediction rest (Dict.set cls v predictions)
  end.

Definition assign_scores (mdl : string) (e : ModelEntry) (prediction : list pyfloat)
  (predictions : odict pyfloat) : result (odict pyfloat) :=
  if model_outputs e =? 1 then
    try v := from_option inr (inl IndexError) (Py.index prediction 0) in
    inr (Dict.set mdl v predictions)
  else
    match class_mapping e with
    | MDict d => assign_classes prediction d predictions
    | MStr _ => inl AttributeError
    end.

(** Lines 146-148 for one label with deque [d] and score [v]: the score
    kept in [predictions] and stored, and the deque afterwards. *)
Definition append_score (d : list pyfloat) (v : pyfloat) : pyfloat * list pyfloat :=
  let v' := if (length d <? 5)%nat then fzero else v in
  (v', deque_append d v').

(** Lines 145-148: every label of [predictions] is visited once, in order;
    no key is added, so the loop over the keys with [predictions[mdl]] read
    and assigned inside is a pass over the entries. *)
Fixpoint update_buffer (predictions : odict pyfloat)
  (buf : gmap string (list pyfloat)) : odict pyfloat * gmap string (list pyfloat) :=
  match predictions with
  | [] => ([], buf)
  | (mdl, v) :: rest =>
      let '(v', d') := append_score (default [] (buf !! mdl)) v in
      let '(rest', buf') := update_buffer rest (<[mdl := d']> buf) in
      ((mdl, v') :: rest', buf')
  end.

Definition update_prediction_buffer (predictions : odict pyfloat) : M State (odict pyfloat) :=
  m <- get_self ;;
  let '(predictions', buf') := update_buffer predictions (prediction_buffer m) in
  put_self {| registry := registry m; prediction_buffer := buf';
              preprocessor := preprocessor m |} ;;;
  ret predictions'.

(** Lines 128-153: the body of the loop over [self.models.keys()]. The
    inner loop rebinds [mdl] to the last label of [predictions]; only the
    timing entry reads it afterwards. *)
Definition run_model (timing : bool) (mdl : string) (e : ModelEntry)
  (acc : odict pyfloat * odict pyfloat) : M State (odict pyfloat * odict pyfloat) :=
  let '(predictions, timing_dict) := acc in
  let input_name := model_input_names e in
  model_start <- stamp timing ;;
  m <- get_self ;;
  let prediction :=
    session_run (models e) input_name (get_features (preprocessor m) (model_inputs e)) in
  predictions <- lift (assign_scores mdl e prediction predictions) ;;
  predictions <- update_prediction_buffer predictions ;;
  let mdl := List.last (Dict.keys predictions) mdl in
  model_end <- stamp timing ;;
  ret (predictions,
       if timing then Dict.set mdl (fsub model_end model_start) timing_dict
       else timing_dict).

Fixpoint run_models (timing : bool) (entries : odict ModelEntry)
  (acc : odict pyfloat * odict pyfloat) : M State (odict pyfloat * odict pyfloat) :=
  match entries with
  | [] => ret acc
  | (mdl, e) :: rest =>
      acc' <- run_model timing mdl e acc ;;
      run_models timing rest acc'
  end.

(** [(scores >= t).sum()] *)
Definition count_ge (scores : list pyfloat) (t : pyfloat) : Z :=
  Z.of_nat (length (filter (fun s => fge s t = true) scores)).

(** Lines 160-165. *)
Fixpoint apply_patience (m : Model) (patience : gmap string Z)
  (threshold : gmap string pyfloat) (predictions : odict pyfloat)
  : result (odict pyfloat) :=
  match predictions with
  | [] => inr []
  | (mdl, v) :: rest =>
      let parent_model := get_parent_model_from_label m mdl in
      try v' :=
        match patience !! parent_model with
        | Some k =>
            let scores := Py.slice_from (buffer m mdl) (- k) in
            match threshold !! parent_model with
            | Some t => inr (if count_ge scores t <? k then fzero else v)
            | None => inl KeyError
            end
        | None => inr v
        end in
      try rest' := apply_patience m patience threshold rest in
      inr ((mdl, v') :: rest')
  end.

(** [d != {}] and [d == {}] *)
Definition nonempty {V} (d : gmap string V) : bool := negb (bool_decide (dom d = ∅)).

(** Lines 156-165. *)
Definition debounce (patience : gmap string Z) (threshold : gmap string pyfloat)
  (predictions : odict pyfloat) : M State (odict pyfloat) :=
  if nonempty patience then
    if negb (nonempty threshold) then lift (inl ValueError)
    else m <- get_self ;; lift (apply_patience m patience threshold predictions)
  else ret predictions.

(** Lines 114-153: features, then every model scored and buffered. *)
Definition score_frame (x : list Z) (timing : bool)
  : M State (odict pyfloat * odict pyfloat) :=
  feature_start <- stamp timing ;;
  m <- get_self ;;
  put_self {| registry := registry m; prediction_buffer := prediction_buffer m;
              preprocessor := preprocessor_call (preprocessor m) x |} ;;;
  feature_end <- stamp timing ;;
  let timing_dict :=
    if timing then [("preprocessor", fsub feature_end feature_start)] else [] in
  run_models timing (registry m) ([], timing_dict).

Definition predict (x : list Z) (patience : gmap string Z)
  (threshold : gmap string pyfloat) (timing : bool) : M State (odict pyfloat) :=
  acc <- score_frame x timing ;;
  let '(predictions, timing_dict) := acc in
  predictions <- debounce patience threshold predictions ;;
  (if timing then pprint timing_dict else ret tt) ;;;
  ret predictions.

(** ** [predict_clip] *)

Definition step_size : Z := 1280.

(** Lines 190-197 on the samples read from the file. [np.zeros] refuses a
    negative length. *)
Definition pad (data : list Z) (padding : Z) : result (list Z) :=
  if padding =? 0 then inr data
  else if padding <? 0 then inl ValueError
  else
    let silence := replicate (Z.to_nat (16000 * padding)) 0 in
    inr (silence ++ data ++ silence).

(** Lines 202-203. *)
Fixpoint predict_frames (data : list Z) (starts : list Z)
  (patience : gmap string Z) (threshold : gmap string pyfloat) (timing : bool)
  (predictions : list (odict pyfloat)) : M State (list (odict pyfloat)) :=
  match starts with
  | [] => ret predictions
  | i :: rest =>
      p <- predict (Py.slice data i (i + step_size)) patience threshold timing ;;
      predict_frames data rest patience threshold timing (predictions ++ [p])
  end.

(** [predict_clip] from the samples of the clip on: [samples] is what
    [np.frombuffer(f.readframes(f.getnframes()), dtype=np.int16)] yields. *)
Definition predict_clip (samples : list Z) (padding : Z)
  (patience : gmap string Z) (threshold : gmap string pyfloat) (timing : bool)
  : M State (list (odict pyfloat)) :=
  data <- lift (pad samples padding) ;;
  predict_frames data
    (Py.range 0 (Z.of_nat (length data) - step_size) step_size)
    patience threshold timing [].

(** ** Notions of the design document *)

(** The last [min k (length d)] entries of [d], oldest first: the window of
    size [k] of a buffer. *)
Definition trailing {A} (k : Z) (d : list A) : list A :=
  drop (length d - Z.to_nat k)%nat d.

(** The scores of one label appended one after the other: the scores
    stored, and the deque at the end. *)
Fixpoint append_all (d : list pyfloat) (raws : list pyfloat)
  : list pyfloat * list pyfloat :=
  match raws with
  | [] => ([], d)
  | v :: rest =>
      let '(v', d') := append_score d v in
      let '(stored, d'') := append_all d' rest in
      (v' :: stored, d'')
  end.

(** What the cold start rule stores for the raw scores [raws] of a label,
    from an empty deque on: zeros for the first five, then the scores. *)
Definition stored (raws : list pyfloat) : list pyfloat :=
  replicate (Nat.min 5 (length raws)) fzero ++ drop 5 raws.

(** A buffer in its cold start holds zeros only: unless entries have left
    it, its first five entries are [0.0]. *)
Definition cold_start_ok (d : list pyfloat) : Prop :=
  length d = maxlen \/ Forall (fun v => v = fzero) (take 5 d).

(** [J] is kept by the two writes of [predict]: the feature extractor
    taking a frame, and the buffer update. *)
Definition kept (J : Model -> Prop) : Prop :=
  forall m, J m ->
    (forall pre, J (mkModel (registry m) (prediction_buffer m) pre)) /\
    (forall predictions,
        J (mkModel (registry m)
             (update_buffer predictions (prediction_buffer m)).2
             (preprocessor m))).

(** The debounce rule of the design document for the score [v] of label
    [l]: with [p] the parent model of the label, [k] its patience and [t]
    its threshold, the score becomes 0.0 when fewer than [k] of the trailing
    [k] entries of the label's buffer are at least [t]; a label whose parent
    has no patience keeps its score. *)
Definition debounce_rule (m : Model) (patience : gmap string Z)
  (threshold : gmap string pyfloat) (l : string) (v : pyfloat) : pyfloat :=
  let p := get_parent_model_from_label m l in
  match patience !! p, threshold !! p with
  | Some k, Some t =>
      if count_ge (trailing k (buffer m l)) t <? k then fzero else v
  | _, _ => v
  end.

(** The scores of a frame have just been appended: labels are distinct and
    the score of each is the newest entry of its buffer. *)
Definition just_appended (acc : odict pyfloat * odict pyfloat) (s : State) : Prop :=
  NoDup (Dict.keys acc.1) /\
  forall l v, (l, v) ∈ acc.1 -> last (buffer (self s) l) = Some v.

(** The parents with patience that the scored labels have are covered by
    [threshold]. *)
Definition covered (m : Model) (patience : gmap string Z)
  (threshold : gmap string pyfloat) (predictions : odict pyfloat) : Prop :=
  forall l, l ∈ Dict.keys predictions ->
    get_parent_model_from_label m l ∈ dom patience ->
    get_parent_model_from_label m l ∈ dom threshold.

(** The scores in the outcome of the scoring phase, the timings left out. *)
Definition scores_of (r : result (odict pyfloat * odict pyfloat))
  : result (odict pyfloat) :=
  match r with
  | inl e => inl e
  | inr acc => inr acc.1
  end.

(** The final component of a path, [mdl_path.split(os.path.sep)[-1]], and
    the set of characters that [strip(".onnx")] removes. *)
Definition basename (mdl_path : string) : string :=
  string_of_list_ascii
    (Py.last_field (Py.split os_path_sep (list_ascii_of_string mdl_path))).

Definition onnx_chars : list ascii := list_ascii_of_string ".onnx".

(** [stem] begins or ends with a character of [chars]. *)
Definition begins_or_ends_with (chars : list ascii) (stem : string) : Prop :=
  exists c rest,
    Py.in_chars chars c = true /\
    (stem = String c rest \/ stem = String.append rest (String c "")).

(** The labels that one model gives scores for (lines 138-142): its own
    name when it has one output, the values of its dictionary otherwise. *)
Definition labels_of (mdl : string) (e : ModelEntry) : list string :=
  if model_outputs e =? 1 then [mdl]
  else match class_mapping e with
       | MDict d => Dict.values d
       | MStr _ => []
       end.

(** The features that the models are run on for the frame [x]. *)
Definition features_for (m : Model) (x : list Z) (e : ModelEntry) : Features :=
  get_features (preprocessor_call (preprocessor m) x) (model_inputs e).

(** Every model with one output is labelled by its own name, as
    [__init__] labels a model whose output name is not a JSON object. *)
Definition one_output_named (reg : odict ModelEntry) : Prop :=
  forall mdl e, (mdl, e) ∈ reg -> model_outputs e = 1 ->
    class_mapping e = MStr mdl.

(** The names in the order of their first occurrence, each once: the order
    of the keys of a dictionary assigned under these names in turn. *)
Fixpoint first_occurrences (names : list string) : list string :=
  match names with
  | [] => []
  | n :: rest => n :: filter (fun n' => n' <> n) (first_occurrences rest)
  end.

(** The entry that [__init__] stores for a path: the session opened on the
    path with its shapes and input name, and for its labels the decoded
    output name when that holds a brace, the name of the model otherwise. *)
Definition built_from (mdl_path : string) (e : ModelEntry) : Prop :=
  ort_InferenceSession mdl_path = inr (models e) /\
  model_inputs e = input_shape1 (models e) /\
  model_outputs e = output_shape1 (models e) /\
  model_input_names e = input_name (models e) /\
  if Py.contains (list_ascii_of_string "{")
       (list_ascii_of_string (output_name (models e)))
  then exists d,
         json_loads (output_name (models e)) = inr d /\
         class_mapping e = MDict d
  else class_mapping e = MStr (mdl_name_of mdl_path).

(** [__init__] raises [err] on a path: the session cannot be opened, or its
    output name holds a brace and does not decode. *)
Definition fails_with (mdl_path : string) (err : exn) : Prop :=
  ort_InferenceSession mdl_path = inl err \/
  exists sess,
    ort_InferenceSession mdl_path = inr sess /\
    Py.contains (list_ascii_of_string "{")
      (list_ascii_of_string (output_name sess)) = true /\
    json_loads (output_name sess) = inl err.

(** [predict] called once per frame, in order. *)
Fixpoint predict_each (frames : list (list Z)) (patience : gmap string Z)
  (threshold : gmap string pyfloat) (timing : bool)
  : M State (list (odict pyfloat)) :=
  match frames with
  | [] => ret []
  | x :: rest =>
      p <- predict x patience threshold timing ;;
      ps <- predict_each rest patience threshold timing ;;
      ret (p :: ps)
  end.

(** The [i]-th frame of a clip, and its first [n] frames. *)
Definition frame (data : list Z) (i : nat) : list Z :=
  take (Z.to_nat step_size) (drop (i * Z.to_nat step_size) data).

Definition frames (data : list Z) (n : nat) : list (list Z) :=
  map (frame data) (seq 0 n).

(** A label is in the mapping of a model. *)
Definition has_label (e : ModelEntry) (label : string) : Prop :=
  match class_mapping e with
  | MDict d => label ∈ Dict.values d
  | MStr s => label = s
  end.

#[global] Instance has_label_dec (e : ModelEntry) (label : string) :
  Decision (has_label e label).
Proof.
  unfold has_label. destruct (class_mapping e) as [s|d].
  - exact (decide (label = s)).
  - exact (decide (label ∈ Dict.values d)).
Defined.

(** In a registry built by [__init__] the label of a one-output model is
    the name of the model. *)
Definition binary_named (reg : odict ModelEntry) : Prop :=
  forall mdl e s, (mdl, e) ∈ reg -> class_mapping e = MStr s -> s = mdl.

(** Scoring never raises on this registry: every one-output model yields a
    row with an entry, every other model has a dictionary whose keys are
    valid indices of its row. *)
Definition scoring_total (reg : odict ModelEntry) : Prop :=
  forall mdl e feats predictions, (mdl, e) ∈ reg ->
    exists predictions',
      assign_scores mdl e (session_run (models e) (model_input_names e) feats)
        predictions = inr predictions'.

End OpenWakeWord.

(** ** A runtime to run the class on

    Floats are binary64; a session is a record holding its metadata and the
    function from the features to the output row; the feature extractor
    hands the last frame to the models. Paths and output names are looked
    up in small tables. *)
Module Demo.

#[local] Set Warnings "-inexact-float".

Record session : Type := mkSession {
  s_in : Z;
  s_out : Z;
  s_output_name : string;
  s_input_name : string;
  s_run : list Z -> list float
}.

(** The score is read off the first sample of the frame, in tenths. *)
Definition tenths (x : list Z) : float :=
  match x with
  | 4 :: _ => 0.4%float
  | 5 :: _ => 0.5%float
  | 6 :: _ => 0.6%float
  | 7 :: _ => 0.7%float
  | 9 :: _ => 0.9%float
  | _ => 0.1%float
  end.

Definition binary_session : session :=
  {| s_in := 16; s_out := 1; s_output_name := "output"; s_input_name := "input";
     s_run := fun x => [tenths x] |}.

Definition multiclass_session : session :=
  {| s_in := 16; s_out := 3; s_output_name := "{012}"; s_input_name := "input";
     s_run := fun x => [tenths x; 0.2%float; 0.3%float] |}.

Definition other_multiclass_session : session :=
  {| s_in := 16; s_out := 2; s_output_name := "{01}"; s_input_name := "input";
     s_run := fun x => [0.8%float; tenths x] |}.

Definition load (path : string) : result session :=
  if String.eqb path "models/hey.onnx" then inr binary_session
  else if String.eqb path "models/alexa.onnx" then inr binary_session
  else if String.eqb path "models/oxen.onnx" then inr binary_session
  else if String.eqb path "models/timer.onnx" then inr multiclass_session
  else if String.eqb path "models/clock.onnx" then inr other_multiclass_session
  else inl LoadError.

Definition loads (name : string) : result (odict string) :=
  if String.eqb name "{012}"
  then inr [("0", "minute"); ("1", "hour"); ("2", "second")]
  else if String.eqb name "{01}"
  then inr [("0", "hour"); ("1", "alarm")]
  else inl JSONDecodeError.

Definition digit (c : ascii) : option Z :=
  let n := Z.of_nat (nat_of_ascii c) in
  if (48 <=? n) && (n <=? 57) then Some (n - 48) else None.

Fixpoint digits (acc : Z) (s : list ascii) : result Z :=
  match s with
  | [] => inr acc
  | c :: s' =>
      match digit c with
      | Some d => digits (10 * acc + d) s'
      | None => inl ValueError
      end
  end.

Definition int_of (s : string) : result Z :=
  match list_ascii_of_string s with
  | [] => inl ValueError
  | l => digits 0 l
  end.

Definition runtime : Runtime := {|
  pyfloat := float;
  fzero := 0%float;
  fge := fun x y => PrimFloat.leb y x;
  fsub := PrimFloat.sub;
  time_time := fun n => Nat.iter n (fun t => PrimFloat.add t 1%float) 0%float;
  AudioFeatures := list Z;
  Features := list Z;
  preprocessor_call := fun _ x => x;
  get_features := fun pre _ => pre;
  InferenceSession := session;
  ort_InferenceSession := load;
  input_shape1 := s_in;
  output_shape1 := s_out;
  output_name := s_output_name;
  input_name := s_input_name;
  session_run := fun sess _ feats => s_run sess feats;
  json_loads := loads;
  py_int := int_of
|}.

(** Instances to run on: the registry loaded from [paths], an instance with
    given buffers, and the state of a first call. *)
Definition registry_of (paths : list string) : odict (@ModelEntry runtime) :=
  match @load_models runtime paths [] with
  | inr reg => reg
  | inl _ => []
  end.

Definition instance (paths : list string) (buf : gmap string (list float))
  : @Model runtime :=
  {| registry := registry_of paths; prediction_buffer := buf; preprocessor := [] |}.

Definition start (m : @Model runtime) : @State runtime :=
  {| self := m; clock := 0; stdout := [] |}.

(** One binary model whose label has left its cold start. *)
Definition hey_warm : @Model runtime :=
  instance ["models/hey.onnx"]
    {[ "hey" := [0; 0; 0; 0; 0; 0.6; 0.4]%float ]}.

Definition hey_warm' : @Model runtime :=
  instance ["models/hey.onnx"]
    {[ "hey" := [0; 0; 0; 0; 0; 0.6; 0.5]%float ]}.

(** Two multiclass models that share the label "hour". *)
Definition timer_entry : @ModelEntry runtime :=
  @mkEntry runtime multiclass_session 16 3
    (MDict [("0", "minute"); ("1", "hour"); ("2", "second")]) "input".

Definition clock_entry : @ModelEntry runtime :=
  @mkEntry runtime other_multiclass_session 16 2
    (MDict [("0", "hour"); ("1", "alarm")]) "input".

Definition two_clocks : @Model runtime :=
  instance ["models/timer.onnx"; "models/clock.onnx"] ∅.

(** Two binary models, nothing buffered yet. *)
Definition hey_alexa : @Model runtime :=
  instance ["models/hey.onnx"; "models/alexa.onnx"] ∅.

(** A binary model and a multiclass model, nothing buffered yet. *)
Definition hey_entry : @ModelEntry runtime :=
  @mkEntry runtime binary_session 16 1 (MStr "hey") "input".

Definition hey_timer : @Model runtime :=
  instance ["models/hey.onnx"; "models/timer.onnx"] ∅.

(** The state after the frame [x] has been scored on [m]. *)
Definition scored (m : @Model runtime) (x : list Z) : @State runtime :=
  (@score_frame runtime x false (start m)).1.

End Demo.

(** * Properties *)

(** ** Python built-ins *)

Lemma range_from_stop (n k : nat) (start stop step : Z) :
  0 < step -> (k <= n)%nat ->
  start + (Z.of_nat k - 1) * step < stop <= start + Z.of_nat k * step ->
  Py.range_from n start stop step
  = map (fun i => start + Z.of_nat i * step) (seq 0 k).
Proof.
  intros Hstep. revert n start.
  induction k as [|k IH]; intros n start Hn Hstop.
  - destruct n as [|n]; simpl; [done|].
    assert ((start <? stop) = false) as -> by (apply Z.ltb_ge; lia). done.
  - destruct n as [|n]; [lia|]. simpl.
    assert ((start <? stop) = true) as -> by (apply Z.ltb_lt; nia).
    rewrite Z.add_0_r. f_equal.
    rewrite (IH n (start + step)) by lia.
    rewrite <- seq_shift, map_map. apply map_ext. intros i. lia.
Qed.

(** [range(0, stop, step)] has as many elements as there are multiples of
    [step] below [stop]. *)
Lemma range_count (k : nat) (stop step : Z) :
  0 < step ->
  (Z.of_nat k - 1) * step < stop <= Z.of_nat k * step ->
  Py.range 0 stop step = map (fun i => Z.of_nat i * step) (seq 0 k).
Proof.
  intros Hstep Hstop. unfold Py.range.
  rewrite (range_from_stop _ k) by (try nia; lia). done.
Qed.

Lemma slice_frame {A} (a : list A) (i n : nat) :
  (i + n <= length a)%nat ->
  Py.slice a (Z.of_nat i) (Z.of_nat i + Z.of_nat n) = take n (drop i a).
Proof.
  intros H. unfold Py.slice, Py.clamp.
  assert ((Z.of_nat i <? 0) = false) as -> by (apply Z.ltb_ge; lia).
  assert ((Z.of_nat i + Z.of_nat n <? 0) = false) as -> by (apply Z.ltb_ge; lia).
  rewrite !Nat.min_r by lia.
  rewrite Nat2Z.id. f_equal. lia.
Qed.

(** ** The deque *)

Lemma deque_append_length {A} (d : list A) (x : A) :
  length (deque_append d x) = Nat.min maxlen (S (length d)).
Proof.
  unfold deque_append. rewrite length_drop, length_app. cbn [length].
  unfold maxlen. lia.
Qed.

Lemma deque_append_room {A} (d : list A) (x : A) :
  (length d < maxlen)%nat -> deque_append d x = d ++ [x].
Proof.
  unfold deque_append, maxlen. intros H. rewrite length_app. cbn [length].
  replace (length d + 1 - 30)%nat with O by lia. done.
Qed.

Lemma deque_append_full {A} (d : list A) (x : A) :
  length d = maxlen -> deque_append d x = drop 1 d ++ [x].
Proof.
  unfold deque_append, maxlen. intros H. rewrite length_app. cbn [length].
  replace (length d + 1 - 30)%nat with 1%nat by lia.
  destruct d; done.
Qed.

Lemma deque_append_last {A} (d : list A) (x : A) :
  last (deque_append d x) = Some x.
Proof.
  unfold deque_append, maxlen. rewrite length_app. cbn [length].
  rewrite drop_app_le by lia.
  apply last_snoc.
Qed.

(** Appending to a deque that is the tail of a history keeps it the tail of
    the history. *)
Lemma deque_append_history {A} (xs : list A) (x : A) :
  deque_append (drop (length xs - maxlen) xs) x
  = drop (length (xs ++ [x]) - maxlen) (xs ++ [x]).
Proof.
  unfold deque_append, maxlen.
  rewrite !length_app, length_drop. cbn [length].
  rewrite <- drop_app_le by lia.
  rewrite drop_drop. f_equal. lia.
Qed.

Lemma appends_history {A} (xs : list A) :
  fold_left deque_append xs [] = drop (length xs - maxlen) xs.
Proof.
  induction xs as [|x xs IH] using rev_ind; [done|].
  rewrite fold_left_app. cbn [fold_left]. rewrite IH. apply deque_append_history.
Qed.

(** ** Cold start on one label *)

Section Buffer.
Context `{RT : Runtime}.

Lemma append_score_cold (d : list pyfloat) (v : pyfloat) :
  (length d < 5)%nat -> append_score d v = (fzero, d ++ [fzero]).
Proof.
  intros H. unfold append_score.
  assert ((length d <? 5)%nat = true) as -> by (apply Nat.ltb_lt; lia).
  rewrite deque_append_room by (unfold maxlen; lia). done.
Qed.

Lemma append_score_warm (d : list pyfloat) (v : pyfloat) :
  (5 <= length d)%nat -> append_score d v = (v, deque_append d v).
Proof.
  intros H. unfold append_score.
  assert ((length d <? 5)%nat = false) as -> by (apply Nat.ltb_ge; lia). done.
Qed.

Lemma append_all_app (d : list pyfloat) (xs ys : list pyfloat) :
  append_all d (xs ++ ys)
  = let '(s1, d1) := append_all d xs in
    let '(s2, d2) := append_all d1 ys in
    (s1 ++ s2, d2).
Proof.
  revert d. induction xs as [|x xs IH]; intros d; cbn [append_all app].
  - destruct (append_all d ys). done.
  - destruct (append_score d x) as [v' d']. rewrite IH.
    destruct (append_all d' xs) as [s1 d1].
    destruct (append_all d1 ys) as [s2 d2]. done.
Qed.

Lemma length_stored (raws : list pyfloat) : length (stored raws) = length raws.
Proof.
  unfold stored. rewrite length_app, length_replicate, length_drop. lia.
Qed.

Lemma stored_snoc (raws : list pyfloat) (v : pyfloat) :
  stored (raws ++ [v])
  = stored raws ++ [if (length raws <? 5)%nat then fzero else v].
Proof.
  unfold stored. rewrite length_app. cbn [length].
  destruct (Nat.ltb_spec (length raws) 5) as [Hlt|Hge].
  - rewrite !drop_ge by (rewrite ?length_app; cbn [length]; lia).
    rewrite !app_nil_r.
    replace (Nat.min 5 (length raws + 1)) with (S (length raws)) by lia.
    replace (Nat.min 5 (length raws)) with (length raws) by lia.
    rewrite replicate_S_end. done.
  - rewrite drop_app_le by lia.
    replace (Nat.min 5 (length raws + 1)) with 5%nat by lia.
    replace (Nat.min 5 (length raws)) with 5%nat by lia.
    rewrite app_assoc. done.
Qed.

Lemma append_all_history (raws : list pyfloat) :
  append_all [] raws
  = (stored raws, drop (length raws - maxlen) (stored raws)).
Proof.
  induction raws as [|v raws IH] using rev_ind; [done|].
  rewrite append_all_app, IH. cbn [append_all].
  set (d := drop (length raws - maxlen) (stored raws)).
  assert (length d = Nat.min maxlen (length raws)) as Hd.
  { subst d. rewrite length_drop, length_stored. unfold maxlen. lia. }
  rewrite stored_snoc.
  assert (append_score d v
          = (if (length raws <? 5)%nat then fzero else v,
             deque_append d (if (length raws <? 5)%nat then fzero else v))) as ->.
  { unfold append_score. rewrite Hd.
    assert ((Nat.min maxlen (length raws) <? 5)%nat = (length raws <? 5)%nat) as ->.
    { unfold maxlen.
      destruct (Nat.ltb_spec (length raws) 5);
        [apply Nat.ltb_lt | apply Nat.ltb_ge]; lia. }
    done. }
  f_equal. subst d.
  rewrite <- (length_stored raws) at 1.
  rewrite deque_append_history.
  rewrite !length_app, length_stored. done.
Qed.

End Buffer.

(** ** Rules for methods *)

Section Rules.
Context {St : Type}.
Implicit Types (P : St -> Prop) (E : exn -> St -> Prop).

Lemma triple_ret {A} P (a : A) (Q : A -> St -> Prop) E :
  (forall s, P s -> Q a s) -> triple P (ret a) Q E.
Proof. intros H s Hs. cbn. auto. Qed.

Lemma triple_lift {A} P (r : result A) (Q : A -> St -> Prop) E :
  (forall s, P s -> match r with inr a => Q a s | inl e => E e s end) ->
  triple P (lift r) Q E.
Proof. intros H s Hs. unfold lift. specialize (H s Hs). destruct r; auto. Qed.

Lemma triple_bind {A B} P (c : M St A) (k : A -> M St B)
  (R : A -> St -> Prop) (Q : B -> St -> Prop) E :
  triple P c R E -> (forall a, triple (R a) (k a) Q E) ->
  triple P (bind c k) Q E.
Proof.
  intros Hc Hk s Hs. unfold bind. specialize (Hc s Hs).
  destruct (c s) as [s' [e|a]]; [done|]. by apply Hk.
Qed.

Lemma triple_weaken {A} P P' (c : M St A) (Q Q' : A -> St -> Prop) E E' :
  triple P' c Q' E' ->
  (forall s, P s -> P' s) ->
  (forall a s, Q' a s -> Q a s) ->
  (forall e s, E' e s -> E e s) ->
  triple P c Q E.
Proof.
  intros Hc HP HQ HE s Hs. specialize (Hc s (HP s Hs)).
  destruct (c s) as [s' [e|a]]; auto.
Qed.

End Rules.

Section StateRules.
Context `{RT : Runtime}.
Implicit Types (P : State -> Prop) (E : exn -> State -> Prop).

Lemma triple_get_self P (Q : Model -> State -> Prop) E :
  (forall s, P s -> Q (self s) s) -> triple P get_self Q E.
Proof. intros H s Hs. cbn. auto. Qed.

Lemma triple_put_self P (m : Model) (Q : unit -> State -> Prop) E :
  (forall s, P s -> Q tt (mkState m (clock s) (stdout s))) ->
  triple P (put_self m) Q E.
Proof. intros H s Hs. cbn. auto. Qed.

(** A property of the instance alone is not affected by the clock or by
    printing. *)
Lemma triple_stamp (J : Model -> Prop) (timing : bool) E :
  triple (fun s => J (self s)) (stamp timing) (fun _ s => J (self s)) E.
Proof. intros s Hs. destruct timing; cbn; done. Qed.

Lemma triple_pprint (J : Model -> Prop) (timing_dict : odict pyfloat) E :
  triple (fun s => J (self s)) (pprint timing_dict) (fun _ s => J (self s)) E.
Proof. intros s Hs. cbn. done. Qed.

End StateRules.

(** ** Ordered dictionaries *)

Section DictFacts.
Context {V : Type}.
Implicit Types (d : odict V) (k : string) (v : V).

Lemma keys_set_in k v d :
  k ∈ Dict.keys d -> Dict.keys (Dict.set k v d) = Dict.keys d.
Proof.
  induction d as [|[k' v'] d IH]; cbn; intros Hin.
  - by apply elem_of_nil in Hin.
  - destruct (String.eqb_spec k k') as [->|Hne]; [done|].
    cbn. f_equal. apply IH.
    apply elem_of_cons in Hin as [?|?]; [congruence|done].
Qed.

Lemma keys_set_fresh k v d :
  k ∉ Dict.keys d -> Dict.keys (Dict.set k v d) = Dict.keys d ++ [k].
Proof.
  induction d as [|[k' v'] d IH]; cbn; intros Hin; [done|].
  destruct (String.eqb_spec k k') as [->|Hne].
  - exfalso. apply Hin. left.
  - cbn. f_equal. apply IH. intros ?. apply Hin. by right.
Qed.

Lemma NoDup_keys_set k v d :
  NoDup (Dict.keys d) -> NoDup (Dict.keys (Dict.set k v d)).
Proof.
  intros Hd. destruct (decide (k ∈ Dict.keys d)) as [Hin|Hout].
  - by rewrite keys_set_in.
  - rewrite keys_set_fresh by done.
    apply NoDup_app. split; [done|]. split; [|apply NoDup_singleton].
    intros x Hx Hk. apply list_elem_of_singleton in Hk. by subst.
Qed.

End DictFacts.

(** ** The buffer update of a frame *)

Section UpdateBuffer.
Context `{RT : Runtime}.
Implicit Types (buf : gmap string (list pyfloat)) (predictions : odict pyfloat).

Lemma update_buffer_keys predictions buf :
  Dict.keys (update_buffer predictions buf).1 = Dict.keys predictions.
Proof.
  revert buf. induction predictions as [|[l v] rest IH]; intros buf; [done|].
  cbn [update_buffer]. destruct (append_score _ v) as [v' d'].
  specialize (IH (<[l:=d']> buf)).
  destruct (update_buffer rest _) as [rest' buf']. cbn in *. by f_equal.
Qed.

Lemma update_buffer_other predictions buf l :
  l ∉ Dict.keys predictions ->
  (update_buffer predictions buf).2 !! l = buf !! l.
Proof.
  revert buf. induction predictions as [|[l0 v] rest IH]; intros buf Hl; [done|].
  cbn [update_buffer]. destruct (append_score _ v) as [v' d'].
  specialize (IH (<[l0:=d']> buf)).
  destruct (update_buffer rest _) as [rest' buf']. cbn in *.
  apply not_elem_of_cons in Hl as [Hne Hl].
  rewrite IH by done. by rewrite lookup_insert_ne.
Qed.

(** With distinct labels, each label of [predictions] is appended to once,
    under the cold start rule. *)
Lemma update_buffer_lookup predictions buf l v :
  NoDup (Dict.keys predictions) -> (l, v) ∈ predictions ->
  (l, (append_score (default [] (buf !! l)) v).1)
    ∈ (update_buffer predictions buf).1 /\
  (update_buffer predictions buf).2 !! l
  = Some (append_score (default [] (buf !! l)) v).2.
Proof.
  revert buf. induction predictions as [|[l0 v0] rest IH]; intros buf Hnd Hin.
  { by apply elem_of_nil in Hin. }
  cbn [Dict.keys map fst] in Hnd. apply NoDup_cons in Hnd as [Hl0 Hnd].
  cbn [update_buffer].
  destruct (append_score (default [] (buf !! l0)) v0) as [v' d'] eqn:Hs.
  pose proof (update_buffer_other rest (<[l0:=d']> buf) l0 Hl0) as Hother.
  specialize (IH (<[l0:=d']> buf) Hnd).
  destruct (update_buffer rest _) as [rest' buf']. cbn [fst snd] in *.
  apply elem_of_cons in Hin as [Heq|Hin].
  - injection Heq as -> ->. rewrite Hs. cbn [fst snd]. split; [left|].
    by rewrite Hother, lookup_insert_eq.
  - assert (l <> l0) as Hne.
    { intros ->. apply Hl0. apply list_elem_of_fmap. by exists (l0, v). }
    specialize (IH Hin). rewrite lookup_insert_ne in IH by done.
    destruct IH as [IH1 IH2]. split; [by right|done].
Qed.

Lemma update_buffer_last predictions buf l v :
  NoDup (Dict.keys predictions) ->
  (l, v) ∈ (update_buffer predictions buf).1 ->
  last (default [] ((update_buffer predictions buf).2 !! l)) = Some v.
Proof.
  revert buf. induction predictions as [|[l0 v0] rest IH]; intros buf Hnd Hin.
  { by apply elem_of_nil in Hin. }
  cbn [Dict.keys map fst] in Hnd. apply NoDup_cons in Hnd as [Hl0 Hnd].
  cbn [update_buffer] in *.
  destruct (append_score (default [] (buf !! l0)) v0) as [v' d'] eqn:Hs.
  pose proof (update_buffer_other rest (<[l0:=d']> buf) l0 Hl0) as Hother.
  specialize (IH (<[l0:=d']> buf) Hnd).
  destruct (update_buffer rest _) as [rest' buf']. cbn [fst snd] in *.
  apply elem_of_cons in Hin as [Heq|Hin].
  - injection Heq as -> ->. rewrite Hother, lookup_insert_eq. cbn [default].
    unfold append_score in Hs. injection Hs as <- <-. apply deque_append_last.
  - by apply IH.
Qed.

(** A property of deques that every append keeps is kept for every label. *)
Lemma update_buffer_all (P : list pyfloat -> Prop) predictions buf :
  (forall d v, P d -> P (append_score d v).2) ->
  (forall l, P (default [] (buf !! l))) ->
  forall l, P (default [] ((update_buffer predictions buf).2 !! l)).
Proof.
  intros HP. revert buf.
  induction predictions as [|[l0 v0] rest IH]; intros buf Hbuf; [done|].
  cbn [update_buffer].
  destruct (append_score (default [] (buf !! l0)) v0) as [v' d'] eqn:Hs.
  specialize (IH (<[l0:=d']> buf)).
  destruct (update_buffer rest _) as [rest' buf']. cbn [fst snd] in *.
  apply IH. intros l. destruct (decide (l0 = l)) as [->|Hne].
  - rewrite lookup_insert_eq. cbn [default].
    specialize (HP _ v0 (Hbuf l)). by rewrite Hs in HP.
  - by rewrite lookup_insert_ne.
Qed.

End UpdateBuffer.

(** ** What a call keeps *)

Section Invariants.
Context `{RT : Runtime}.

Ltac step J :=
  eapply (triple_bind _ _ _ (fun _ s => J (self s))); [|intros ?].

Lemma update_prediction_buffer_kept J predictions :
  kept J ->
  triple (fun s => J (self s)) (update_prediction_buffer predictions)
         (fun _ s => J (self s)) (fun _ s => J (self s)).
Proof.
  intros HJ s Hs. unfold update_prediction_buffer, bind, get_self, put_self, ret.
  destruct (HJ _ Hs) as [_ H]. specialize (H predictions).
  destruct (update_buffer predictions _) as [p' buf']. exact H.
Qed.

Lemma run_model_kept J timing mdl e acc :
  kept J ->
  triple (fun s => J (self s)) (run_model timing mdl e acc)
         (fun _ s => J (self s)) (fun _ s => J (self s)).
Proof.
  intros HJ. destruct acc as [predictions timing_dict]. unfold run_model.
  step J; [apply triple_stamp|].
  step J; [by apply triple_get_self|].
  step J; [apply triple_lift; intros s Hs; by destruct assign_scores|].
  step J; [by apply update_prediction_buffer_kept|].
  step J; [apply triple_stamp|].
  by apply triple_ret.
Qed.

Lemma run_models_kept J timing entries acc :
  kept J ->
  triple (fun s => J (self s)) (run_models timing entries acc)
         (fun _ s => J (self s)) (fun _ s => J (self s)).
Proof.
  intros HJ. revert acc.
  induction entries as [|[mdl e] rest IH]; intros acc; cbn [run_models].
  - by apply triple_ret.
  - step J; [by apply run_model_kept|]. apply IH.
Qed.

Lemma score_frame_kept J x timing :
  kept J ->
  triple (fun s => J (self s)) (score_frame x timing)
         (fun _ s => J (self s)) (fun _ s => J (self s)).
Proof.
  intros HJ. unfold score_frame.
  step J; [apply triple_stamp|].
  eapply (triple_bind _ _ _ (fun m s => J (self s) /\ m = self s)).
  { by apply triple_get_self. }
  intros m.
  step J.
  { apply triple_put_self. intros s [Hs ->]. cbn. by apply HJ. }
  step J; [apply triple_stamp|].
  by apply run_models_kept.
Qed.

Lemma debounce_kept J patience threshold predictions :
  triple (fun s => J (self s)) (debounce patience threshold predictions)
         (fun _ s => J (self s)) (fun _ s => J (self s)).
Proof.
  unfold debounce. destruct (nonempty patience); [|by apply triple_ret].
  destruct (negb (nonempty threshold)).
  - by apply triple_lift.
  - step J; [by apply triple_get_self|].
    apply triple_lift. intros s Hs. by destruct apply_patience.
Qed.

Lemma predict_kept J x patience threshold timing :
  kept J ->
  triple (fun s => J (self s)) (predict x patience threshold timing)
         (fun _ s => J (self s)) (fun _ s => J (self s)).
Proof.
  intros HJ. unfold predict.
  step J; [by apply score_frame_kept|].
  destruct a as [predictions timing_dict].
  step J; [apply debounce_kept|].
  step J; [destruct timing; [apply triple_pprint | by apply triple_ret]|].
  by apply triple_ret.
Qed.

(** [predict] never touches the registry. *)
Lemma predict_registry x patience threshold timing s :
  registry (self (predict x patience threshold timing s).1) = registry (self s).
Proof.
  pose proof (predict_kept (fun m => registry m = registry (self s))
                x patience threshold timing) as H.
  specialize (H ltac:(by intros m Hm) s eq_refl).
  by destruct (predict _ _ _ _ s) as [s' [e|p]].
Qed.

(** A property of deques kept by every append holds of every buffer after
    the call, whether it returns or raises. *)
Lemma predict_buffers (P : list pyfloat -> Prop) x patience threshold timing s :
  (forall d v, P d -> P (append_score d v).2) ->
  (forall l, P (buffer (self s) l)) ->
  forall l, P (buffer (self (predict x patience threshold timing s).1) l).
Proof.
  intros HP Hs.
  pose proof (predict_kept (fun m => forall l, P (buffer m l))
                x patience threshold timing) as H.
  assert (kept (fun m => forall l, P (buffer m l))) as HJ.
  { intros m Hm. split; [done|]. intros predictions.
    apply (update_buffer_all P); [done|]. apply Hm. }
  specialize (H HJ s Hs).
  by destruct (predict _ _ _ _ s) as [s' [e|p]].
Qed.

End Invariants.

(** ** The prediction buffer: capacity and cold start *)

Section PredictionBuffer.
Context `{RT : Runtime}.

Lemma append_score_length (d : list pyfloat) (v : pyfloat) :
  length (append_score d v).2 = Nat.min maxlen (S (length d)).
Proof. unfold append_score. cbn [snd]. apply deque_append_length. Qed.

Lemma append_score_bounded (d : list pyfloat) (v : pyfloat) :
  (length d <= maxlen)%nat -> (length (append_score d v).2 <= maxlen)%nat.
Proof. intros _. rewrite append_score_length. lia. Qed.

Lemma append_score_cold_start_ok (d : list pyfloat) (v : pyfloat) :
  cold_start_ok d -> cold_start_ok (append_score d v).2.
Proof.
  unfold cold_start_ok. intros [Hfull|Hzero].
  - left. rewrite append_score_length, Hfull. lia.
  - destruct (Nat.ltb_spec (length d) 5) as [Hlt|Hge].
    + right. rewrite append_score_cold by done. cbn [snd].
      rewrite take_ge in Hzero by lia.
      apply Forall_take, Forall_app. split; [done|]. by constructor.
    + destruct (decide (length d < maxlen)%nat) as [Hroom|Hnoroom].
      * right. rewrite append_score_warm by done. cbn [snd].
        rewrite deque_append_room by done.
        by rewrite take_app_le by lia.
      * left. rewrite append_score_length. lia.
Qed.

(** C5: appending the scores [raws] of a label to an empty buffer leaves at
    most 30 entries, namely the last 30 scores stored in the order they were
    stored; an append to a buffer of 30 entries drops the oldest entry and
    puts the new score last; a [predict] call keeps every buffer within 30
    entries, and creation and [reset] start from empty buffers. *)
Theorem prediction_buffer_capacity (raws : list pyfloat) :
  let d := (append_all [] raws).2 in
  (length d <= maxlen)%nat /\
  d = drop (length raws - maxlen) (append_all [] raws).1 /\
  (forall v, (maxlen <= length raws)%nat ->
      (append_score d v).2 = drop 1 d ++ [v]) /\
  (forall x patience threshold timing s,
      (forall l, (length (buffer (self s) l) <= maxlen)%nat) ->
      forall l,
        (length (buffer (self (predict x patience threshold timing s).1) l)
         <= maxlen)%nat) /\
  (forall m l, buffer (reset m) l = []) /\
  (forall paths pre m l, Model_init paths pre = inr m -> buffer m l = []).
Proof.
  cbn zeta. rewrite append_all_history. cbn [fst snd].
  assert (length (drop (length raws - maxlen) (stored raws))
          = Nat.min maxlen (length raws)) as Hlen.
  { rewrite length_drop, length_stored. lia. }
  split; [rewrite Hlen; lia|]. split; [done|]. split; [|split; [|split]].
  - intros v Hfull.
    rewrite append_score_warm by (rewrite Hlen; unfold maxlen in *; lia).
    cbn [snd]. apply deque_append_full. rewrite Hlen. lia.
  - intros x patience threshold timing s Hs.
    apply (predict_buffers (fun d => (length d <= maxlen)%nat)); [|done].
    intros d v. apply append_score_bounded.
  - intros m l. unfold buffer, reset. cbn. by rewrite lookup_empty.
  - intros paths pre m l Hinit. unfold Model_init in Hinit.
    destruct (load_models paths []) as [e|reg]; [done|]. cbn in Hinit.
    injection Hinit as <-. unfold buffer. cbn. by rewrite lookup_empty.
Qed.

(** C2: an append to a buffer holding fewer than five entries stores 0.0
    whatever the score; from an empty buffer on, the scores stored for a
    label are 0.0 for the first five appends and the raw scores afterwards;
    [reset] and creation leave every buffer empty; and in a [predict] call
    every buffer changes by such appends only, so that a buffer from which
    nothing has left yet keeps zeros in its first five places. *)
Theorem cold_start_zeroing :
  (forall d v, (length d < 5)%nat -> append_score d v = (fzero, d ++ [fzero])) /\
  (forall raws,
      (append_all [] raws).1
      = replicate (Nat.min 5 (length raws)) fzero ++ drop 5 raws) /\
  (forall m l, buffer (reset m) l = []) /\
  (forall paths pre m l, Model_init paths pre = inr m -> buffer m l = []) /\
  (forall predictions buf l v,
      NoDup (Dict.keys predictions) -> (l, v) ∈ predictions ->
      (length (default [] (buf !! l)) < 5)%nat ->
      (l, fzero) ∈ (update_buffer predictions buf).1 /\
      (update_buffer predictions buf).2 !! l
      = Some (default [] (buf !! l) ++ [fzero])) /\
  (forall x patience threshold timing s,
      (forall l, cold_start_ok (buffer (self s) l)) ->
      forall l,
        cold_start_ok (buffer (self (predict x patience threshold timing s).1) l)).
Proof.
  split; [apply append_score_cold|].
  split; [intros raws; by rewrite append_all_history|].
  split; [intros m l; unfold buffer, reset; cbn; by rewrite lookup_empty|].
  split.
  { intros paths pre m l Hinit. unfold Model_init in Hinit.
    destruct (load_models paths []) as [e|reg]; [done|]. cbn in Hinit.
    injection Hinit as <-. unfold buffer. cbn. by rewrite lookup_empty. }
  split.
  - intros predictions buf l v Hnd Hin Hcold.
    pose proof (update_buffer_lookup predictions buf l v Hnd Hin) as H.
    by rewrite append_score_cold in H.
  - intros x patience threshold timing s Hs.
    apply (predict_buffers cold_start_ok); [|done].
    intros d v. apply append_score_cold_start_ok.
Qed.

End PredictionBuffer.

Section PredictionBufferExamples.
Import Demo.
#[local] Set Warnings "-inexact-float".

(** After 31 appends the next one drops the oldest entry; a call on a warm
    instance keeps its buffers within 30 entries. *)
Lemma prediction_buffer_capacity_witness :
  (@append_score runtime
     (@append_all runtime [] (replicate 31 0.9%float)).2 0.7%float).2
  = drop 1 (@append_all runtime [] (replicate 31 0.9%float)).2 ++ [0.7%float] /\
  forall l,
    (length (buffer (self (@predict runtime [7%Z] ∅ ∅ false (start hey_warm)).1) l)
     <= maxlen)%nat.
Proof.
  pose proof (@prediction_buffer_capacity runtime (replicate 31 0.9%float)) as H.
  cbn zeta in H. destruct H as (_ & _ & Hfull & Hpredict & _).
  split.
  - apply Hfull. rewrite length_replicate. unfold maxlen. lia.
  - apply Hpredict. intros l. unfold buffer, start, hey_warm, instance.
    cbn [self prediction_buffer].
    destruct (decide (l = "hey")) as [->|Hne].
    + rewrite lookup_singleton_eq. cbn. unfold maxlen. lia.
    + rewrite lookup_singleton_ne by done. cbn. unfold maxlen. lia.
Defined.

(** The third append to a buffer stores 0.0 whatever the score; a call on a
    fresh instance leaves buffers in their cold start. *)
Lemma cold_start_zeroing_witness :
  @append_score runtime [0; 0]%float 0.9%float
  = (0%float, [0; 0; 0]%float) /\
  forall l,
    cold_start_ok
      (buffer (self (@predict runtime [9] ∅ ∅ false (start hey_alexa)).1) l).
Proof.
  destruct (@cold_start_zeroing runtime) as (Hcold & _ & _ & _ & _ & Hpredict).
  split.
  - apply (Hcold [0; 0]%float 0.9%float). cbn. lia.
  - apply Hpredict. intros l. right.
    unfold buffer, start, hey_alexa, instance. cbn [self prediction_buffer].
    rewrite lookup_empty. constructor.
Defined.

End PredictionBufferExamples.

(** ** Scores of a frame and their buffers *)

Section JustAppended.
Context `{RT : Runtime}.

Lemma assign_classes_NoDup prediction items predictions predictions' :
  NoDup (Dict.keys predictions) ->
  assign_classes prediction items predictions = inr predictions' ->
  NoDup (Dict.keys predictions').
Proof.
  revert predictions. induction items as [|[int_label cls] rest IH];
    intros predictions Hnd Hassign; cbn [assign_classes] in Hassign.
  - by injection Hassign as <-.
  - destruct (py_int int_label) as [e|i]; [done|]. cbn [rbind] in Hassign.
    destruct (Py.index prediction i) as [v|]; [|done]. cbn in Hassign.
    eapply IH; [|done]. by apply NoDup_keys_set.
Qed.

Lemma assign_scores_NoDup mdl e prediction predictions predictions' :
  NoDup (Dict.keys predictions) ->
  assign_scores mdl e prediction predictions = inr predictions' ->
  NoDup (Dict.keys predictions').
Proof.
  unfold assign_scores. intros Hnd Hassign.
  destruct (model_outputs e =? 1).
  - destruct (Py.index prediction 0) as [v|]; [|done]. cbn in Hassign.
    injection Hassign as <-. by apply NoDup_keys_set.
  - destruct (class_mapping e) as [s|d]; [done|].
    by eapply assign_classes_NoDup.
Qed.

Lemma update_prediction_buffer_just_appended predictions :
  NoDup (Dict.keys predictions) ->
  triple (fun _ => True) (update_prediction_buffer predictions)
         (fun predictions' s => forall timing_dict,
              just_appended (predictions', timing_dict) s)
         (fun _ _ => True).
Proof.
  intros Hnd s _. unfold update_prediction_buffer, bind, get_self, put_self, ret.
  pose proof (update_buffer_keys predictions (prediction_buffer (self s))) as Hk.
  pose proof (fun l v => update_buffer_last predictions
                           (prediction_buffer (self s)) l v Hnd) as Hl.
  destruct (update_buffer predictions _) as [p' buf']. cbn [fst snd] in *.
  intros timing_dict. split; cbn [fst]; [by rewrite Hk|].
  intros l v Hin. unfold buffer. cbn. by apply Hl.
Qed.

Lemma run_model_just_appended timing mdl e acc :
  NoDup (Dict.keys acc.1) ->
  triple (fun _ => True) (run_model timing mdl e acc)
         just_appended (fun _ _ => True).
Proof.
  destruct acc as [predictions timing_dict]. cbn [fst]. intros Hnd.
  unfold run_model.
  eapply (triple_bind _ _ _ (fun _ _ => True)); [by destruct timing|intros t0].
  eapply (triple_bind _ _ _ (fun _ _ => True)); [done|intros m].
  eapply (triple_bind _ _ _ (fun p _ => NoDup (Dict.keys p))).
  { apply triple_lift. intros s _.
    destruct (assign_scores _ _ _ _) as [err|p] eqn:Ha; [done|].
    by eapply assign_scores_NoDup. }
  intros p.
  eapply (triple_bind _ _ _ (fun p' s => forall td, just_appended (p', td) s)).
  { intros s Hp. by apply update_prediction_buffer_just_appended. }
  intros p'.
  eapply (triple_bind _ _ _ (fun _ s => forall td, just_appended (p', td) s)).
  { intros s Hs. by destruct timing. }
  intros t1. apply triple_ret. intros s Hs. apply Hs.
Qed.

Lemma run_models_just_appended timing entries acc :
  triple (just_appended acc) (run_models timing entries acc)
         just_appended (fun _ _ => True).
Proof.
  revert acc. induction entries as [|[mdl e] rest IH]; intros acc;
    cbn [run_models].
  - by apply triple_ret.
  - eapply triple_bind; [|intros acc'; apply IH].
    intros s [Hnd _]. by apply run_model_just_appended.
Qed.

Lemma score_frame_just_appended x timing s s1 acc :
  score_frame x timing s = (s1, inr acc) -> just_appended acc s1.
Proof.
  assert (triple (fun _ => True) (score_frame x timing)
            just_appended (fun _ _ => True)) as H.
  { unfold score_frame.
    eapply (triple_bind _ _ _ (fun _ _ => True)); [by destruct timing|intros t0].
    eapply (triple_bind _ _ _ (fun _ _ => True)); [done|intros m].
    eapply (triple_bind _ _ _ (fun _ _ => True)); [done|intros _].
    eapply (triple_bind _ _ _ (fun _ _ => True)); [by destruct timing|intros t1].
    eapply triple_weaken; [apply run_models_just_appended| |done|done].
    intros s0 _. split; cbn; [constructor|].
    intros l v Hin. by apply elem_of_nil in Hin. }
  intros Hs. specialize (H s I). by rewrite Hs in H.
Qed.

End JustAppended.

(** ** Patience and threshold *)

Section Debounce.
Context `{RT : Runtime}.

Lemma nonempty_true {V} (d : gmap string V) : nonempty d = true <-> d <> ∅.
Proof.
  unfold nonempty. rewrite negb_true_iff, bool_decide_eq_false.
  by rewrite dom_empty_iff_L.
Qed.

Lemma nonempty_false {V} (d : gmap string V) : nonempty d = false <-> d = ∅.
Proof.
  unfold nonempty. rewrite negb_false_iff, bool_decide_eq_true.
  by rewrite dom_empty_iff_L.
Qed.

Lemma count_ge_nonneg scores t : 0 <= count_ge scores t.
Proof. unfold count_ge. lia. Qed.

(** The slice [scores[-k:]] decides as the trailing [k] entries do. *)
Lemma count_slice_trailing (d : list pyfloat) (k : Z) (t : pyfloat) :
  (count_ge (Py.slice_from d (- k)) t <? k)
  = (count_ge (trailing k d) t <? k).
Proof.
  destruct (Z.ltb_spec 0 k) as [Hpos|Hneg].
  - f_equal. f_equal. unfold Py.slice_from, trailing, Py.clamp.
    assert ((- k <? 0) = true) as -> by (apply Z.ltb_lt; lia).
    f_equal. lia.
  - pose proof (count_ge_nonneg (Py.slice_from d (- k)) t).
    pose proof (count_ge_nonneg (trailing k d) t).
    transitivity false; [|symmetry]; apply Z.ltb_ge; lia.
Qed.

Lemma apply_patience_covered m patience threshold predictions :
  covered m patience threshold predictions ->
  apply_patience m patience threshold predictions
  = inr (map (fun lv => (lv.1, debounce_rule m patience threshold lv.1 lv.2))
           predictions).
Proof.
  induction predictions as [|[l v] rest IH]; intros Hcov; [done|].
  cbn [apply_patience map fst snd].
  rewrite IH; cycle 1.
  { intros l' Hl' Hp. apply Hcov; [by right|done]. }
  specialize (Hcov l ltac:(left)).
  unfold debounce_rule. cbn zeta.
  destruct (patience !! get_parent_model_from_label m l) as [k|] eqn:Hk; [|done].
  destruct (threshold !! get_parent_model_from_label m l) as [t|] eqn:Ht.
  - cbn. by rewrite count_slice_trailing.
  - exfalso. apply not_elem_of_dom in Ht. apply Ht, Hcov.
    apply elem_of_dom. by rewrite Hk.
Qed.

Lemma apply_patience_uncovered m patience threshold predictions :
  ~ covered m patience threshold predictions ->
  apply_patience m patience threshold predictions = inl KeyError.
Proof.
  induction predictions as [|[l v] rest IH]; intros Hcov.
  { exfalso. apply Hcov. intros l Hl. by apply elem_of_nil in Hl. }
  cbn [apply_patience]. cbn zeta.
  destruct (patience !! get_parent_model_from_label m l) as [k|] eqn:Hk.
  - destruct (threshold !! get_parent_model_from_label m l) as [t|] eqn:Ht;
      [|done].
    cbn [rbind]. rewrite IH; [done|].
    intros Hrest. apply Hcov. intros l' Hl' Hp.
    apply elem_of_cons in Hl' as [->|Hl']; [|by apply Hrest].
    by apply (elem_of_dom_2 _ _ _ Ht).
  - cbn [rbind]. rewrite IH; [done|].
    intros Hrest. apply Hcov. intros l' Hl' Hp.
    apply elem_of_cons in Hl' as [->|Hl']; [|by apply Hrest].
    by apply not_elem_of_dom in Hk.
Qed.

Lemma apply_patience_returns m patience threshold predictions result :
  apply_patience m patience threshold predictions = inr result ->
  covered m patience threshold predictions.
Proof.
  revert result. induction predictions as [|[l v] rest IH]; intros result Hret.
  { intros l Hl. by apply elem_of_nil in Hl. }
  cbn [apply_patience] in Hret. cbn zeta in Hret.
  destruct (apply_patience m patience threshold rest) as [err|rest'] eqn:Hrest.
  { by destruct (patience !! _) as [k|]; [destruct (threshold !! _)|]. }
  intros l' Hl' Hp. cbn [Dict.keys map fst] in Hl'.
  apply elem_of_cons in Hl' as [->|Hl']; [|by eapply IH].
  apply elem_of_dom in Hp as [k Hk]. rewrite Hk in Hret.
  destruct (threshold !! get_parent_model_from_label m l) as [t|] eqn:Ht;
    [|done].
  by apply (elem_of_dom_2 _ _ _ Ht).
Qed.

(** [predict] after the scoring phase. *)
Lemma predict_after_scoring x patience threshold timing s s1 predictions timing_dict :
  score_frame x timing s = (s1, inr (predictions, timing_dict)) ->
  predict x patience threshold timing s
  = match debounce patience threshold predictions s1 with
    | (s2, inr predictions') =>
        (((if timing then pprint timing_dict else ret tt) s2).1, inr predictions')
    | (s2, inl e) => (s2, inl e)
    end.
Proof.
  intros Hs. unfold predict, bind at 1. rewrite Hs. unfold bind.
  destruct (debounce _ _ _ s1) as [s2 [e|p]]; [done|].
  by destruct timing.
Qed.

Lemma predict_scoring_raises x patience threshold timing s s1 e :
  score_frame x timing s = (s1, inl e) ->
  predict x patience threshold timing s = (s1, inl e).
Proof. intros Hs. unfold predict, bind. by rewrite Hs. Qed.

End Debounce.

(** ** [predict] with patience *)

Section Patience.
Context `{RT : Runtime}.


(** C3, as the code has it: in a [predict] call with a non-empty [patience]
    whose frame is scored without error, an empty [threshold] raises
    [ValueError]; a non-empty [threshold] raises [KeyError] when some scored
    label has a parent model with patience and without threshold; and the
    call returns when every such parent has a threshold, whatever other keys
    [patience] holds. *)
Theorem predict_threshold_errors x patience threshold timing s s1
    predictions timing_dict :
  patience <> ∅ ->
  score_frame x timing s = (s1, inr (predictions, timing_dict)) ->
  (threshold = ∅ ->
     predict x patience threshold timing s = (s1, inl ValueError)) /\
  (threshold <> ∅ ->
     (exists l, l ∈ Dict.keys predictions /\
        get_parent_model_from_label (self s1) l ∈ dom patience /\
        get_parent_model_from_label (self s1) l ∉ dom threshold) ->
     predict x patience threshold timing s = (s1, inl KeyError)) /\
  (threshold <> ∅ ->
     covered (self s1) patience threshold predictions ->
     exists s2 predictions',
       predict x patience threshold timing s = (s2, inr predictions')).
Proof.
  intros Hpat Hscore.
  rewrite (predict_after_scoring _ _ _ _ _ _ _ _ Hscore).
  unfold debounce. apply nonempty_true in Hpat. rewrite Hpat.
  split; [|split].
  - intros ->. by rewrite (proj2 (nonempty_false ∅)).
  - intros Hthr (l & Hl & Hp & Ht). apply nonempty_true in Hthr.
    rewrite Hthr. cbn [negb]. unfold bind, get_self, lift.
    rewrite apply_patience_uncovered; [done|].
    intros Hcov. by apply Ht, Hcov.
  - intros Hthr Hcov. apply nonempty_true in Hthr.
    rewrite Hthr. cbn [negb]. unfold bind, get_self, lift.
    rewrite apply_patience_covered by done. eauto.
Qed.

End Patience.

(** A closed equation whose sides evaluate to the same value. *)
Ltac evaluate :=
  lazymatch goal with |- ?a = ?b => vm_cast_no_check (@eq_refl _ b) end.

Section PatienceExamples.
Import Demo.
#[local] Set Warnings "-inexact-float".



(** The trailing window [0.6; 0.5; 0.7]: the score 0.7 is returned. *)
Example predict_debounce_passes :
  (@predict runtime [7] {[ "hey" := 3 ]} {[ "hey" := 0.5%float ]} false
     (start hey_warm')).2
  = inr [("hey", 0.7%float)].
Proof. evaluate. Qed.

(** A key of [patience] that is the parent of no label: the threshold has
    no such key, and the call returns. *)
Lemma patience_key_without_threshold_returns :
  ({[ "ghost" := 3 ]} : gmap string Z) <> ∅ /\
  ~ dom ({[ "ghost" := 3 ]} : gmap string Z)
      ⊆ dom ({[ "hey" := 0.5%float ]} : gmap string float) /\
  (@predict runtime [7] {[ "ghost" := 3 ]} {[ "hey" := 0.5%float ]} false
     (start hey_warm)).2
  = inr [("hey", 0.7%float)].
Proof.
  split; [|split].
  - apply nonempty_true. evaluate.
  - rewrite !dom_singleton_L. intros H.
    assert ("ghost" ∈ ({[ "hey" ]} : gset string)) as Hin
        by (apply H; by apply elem_of_singleton).
    apply elem_of_singleton in Hin. discriminate.
  - evaluate.
Qed.

Lemma predict_threshold_errors_witness :
  @predict runtime [7] {[ "hey" := 3 ]} ∅ false (start hey_warm)
  = (scored hey_warm [7], inl ValueError) /\
  @predict runtime [7] {[ "hey" := 3 ]} {[ "he" := 0.5%float ]} false
    (start hey_warm)
  = (scored hey_warm [7], inl KeyError).
Proof.
  pose proof (@predict_threshold_errors runtime [7] {[ "hey" := 3 ]} ∅
                false (start hey_warm) (scored hey_warm [7])
                [("hey", 0.7%float)] []) as H1.
  pose proof (@predict_threshold_errors runtime [7] {[ "hey" := 3 ]}
                {[ "he" := 0.5%float ]}
                false (start hey_warm) (scored hey_warm [7])
                [("hey", 0.7%float)] []) as H2.
  assert (({[ "hey" := 3 ]} : gmap string Z) <> ∅) as Hpat
      by (apply nonempty_true; evaluate).
  assert (@score_frame runtime [7] false (start hey_warm)
          = (scored hey_warm [7], inr ([("hey", 0.7%float)], []))) as Hscore
      by evaluate.
  split.
  - apply (proj1 (H1 Hpat Hscore)). reflexivity.
  - apply (proj1 (proj2 (H2 Hpat Hscore))).
    + apply nonempty_true. evaluate.
    + exists "hey". split; [left|]. split.
      * change (get_parent_model_from_label (self (scored hey_warm [7])) "hey")
          with "hey". rewrite dom_singleton_L. by apply elem_of_singleton.
      * change (get_parent_model_from_label (self (scored hey_warm [7])) "hey")
          with "hey". rewrite dom_singleton_L. intros Hin.
        apply elem_of_singleton in Hin. discriminate.
Defined.

End PatienceExamples.

(** ** Parent model of a label *)

Section ParentModel.
Context `{RT : Runtime}.

Lemma existsb_eqb_elem_of (label : string) (l : list string) :
  existsb (String.eqb label) l = true <-> label ∈ l.
Proof.
  rewrite existsb_exists. split.
  - intros (x & Hin & Heq). apply String.eqb_eq in Heq as ->.
    by apply list_elem_of_In.
  - intros Hin. exists label. split; [by apply list_elem_of_In|].
    apply String.eqb_refl.
Qed.

(** One iteration of the loop: a model having the label takes over, any
    other model leaves the parent found so far. *)
Lemma parent_loop_cons label mdl e rest parent_model :
  parent_loop label ((mdl, e) :: rest) parent_model
  = parent_loop label rest
      (if has_label_dec e label
       then match class_mapping e with MDict _ => mdl | MStr s => s end
       else parent_model).
Proof.
  cbn [parent_loop]. f_equal.
  destruct (has_label_dec e label) as [Hhas|Hhas]; unfold has_label in Hhas;
    destruct (class_mapping e) as [s|d].
  - subst. by rewrite String.eqb_refl.
  - apply existsb_eqb_elem_of in Hhas. by rewrite Hhas.
  - destruct (String.eqb_spec label s); [done|done].
  - destruct (existsb (String.eqb label) (Dict.values d)) eqn:Hex; [|done].
    by apply existsb_eqb_elem_of in Hex.
Qed.

Lemma parent_loop_none label entries parent_model :
  (forall mdl e, (mdl, e) ∈ entries -> ~ has_label e label) ->
  parent_loop label entries parent_model = parent_model.
Proof.
  revert parent_model. induction entries as [|[mdl e] rest IH];
    intros parent_model Hnone; [done|].
  rewrite parent_loop_cons.
  destruct (has_label_dec e label) as [Hhas|_].
  - exfalso. apply (Hnone mdl e); [left|done].
  - apply IH. intros mdl' e' Hin. apply (Hnone mdl'). by right.
Qed.

Lemma parent_loop_last label before mdl e after parent_model :
  has_label e label ->
  (forall mdl' e', (mdl', e') ∈ after -> ~ has_label e' label) ->
  parent_loop label (before ++ (mdl, e) :: after) parent_model
  = match class_mapping e with MDict _ => mdl | MStr s => s end.
Proof.
  intros Hhas Hafter. revert parent_model.
  induction before as [|[mdl0 e0] before IH]; intros parent_model.
  - cbn [app]. rewrite parent_loop_cons.
    destruct (has_label_dec e label); [|done].
    by apply parent_loop_none.
  - cbn [app]. rewrite parent_loop_cons. apply IH.
Qed.

Lemma elem_of_set {V} (k k' : string) (v v' : V) (d : odict V) :
  (k', v') ∈ Dict.set k v d -> (k' = k /\ v' = v) \/ (k', v') ∈ d.
Proof.
  induction d as [|[k0 v0] d IH]; cbn [Dict.set]; intros Hin.
  - apply list_elem_of_singleton in Hin. injection Hin as -> ->. by left.
  - destruct (String.eqb_spec k k0) as [->|Hne].
    + apply elem_of_cons in Hin as [Heq|Hin].
      * injection Heq as -> ->. by left.
      * right. by right.
    + apply elem_of_cons in Hin as [Heq|Hin].
      * right. rewrite Heq. left.
      * destruct (IH Hin) as [?|?]; [by left|]. right. by right.
Qed.

Lemma load_model_binary_named mdl_path reg reg' :
  binary_named reg -> load_model mdl_path reg = inr reg' -> binary_named reg'.
Proof.
  unfold load_model. intros Hreg Hload.
  destruct (ort_InferenceSession mdl_path) as [err|sess]; [done|].
  cbn [rbind] in Hload.
  destruct (Py.contains _ _).
  - destruct (json_loads (output_name sess)) as [err|d]; [done|].
    cbn [rbind] in Hload. injection Hload as <-.
    intros mdl e s Hin Hs. apply elem_of_set in Hin as [[-> ->]|Hin].
    + done.
    + by eapply Hreg.
  - cbn [rbind] in Hload. injection Hload as <-.
    intros mdl e s Hin Hs. apply elem_of_set in Hin as [[-> ->]|Hin].
    + cbn in Hs. by injection Hs as <-.
    + by eapply Hreg.
Qed.

Lemma load_models_binary_named paths reg reg' :
  binary_named reg -> load_models paths reg = inr reg' -> binary_named reg'.
Proof.
  revert reg. induction paths as [|mdl_path rest IH]; intros reg Hreg Hload;
    cbn [load_models] in Hload.
  - by injection Hload as <-.
  - destruct (load_model mdl_path reg) as [err|reg1] eqn:H1; [done|].
    cbn [rbind] in Hload. eapply IH; [|done].
    by eapply load_model_binary_named.
Qed.

Lemma Model_init_binary_named paths pre m :
  Model_init paths pre = inr m -> binary_named (registry m).
Proof.
  unfold Model_init. intros Hinit.
  destruct (load_models paths []) as [err|reg] eqn:Hload; [done|].
  cbn [rbind] in Hinit. injection Hinit as <-. cbn.
  eapply load_models_binary_named; [|done].
  intros mdl e s Hin. by apply elem_of_nil in Hin.
Qed.

(** C6, as the code has it: on a registry built by [__init__], the lookup
    returns the empty string when no model has the label, and otherwise the
    name of the last model, in registry order, that has it -- for a
    one-output model that name is the label itself. *)
Theorem get_parent_model_last_match paths pre m label :
  Model_init paths pre = inr m ->
  ((forall mdl e, (mdl, e) ∈ registry m -> ~ has_label e label) ->
     get_parent_model_from_label m label = "") /\
  (forall before mdl e after,
     registry m = before ++ (mdl, e) :: after ->
     has_label e label ->
     (forall mdl' e', (mdl', e') ∈ after -> ~ has_label e' label) ->
     get_parent_model_from_label m label = mdl /\
     (forall s, class_mapping e = MStr s -> mdl = label)).
Proof.
  intros Hinit. unfold get_parent_model_from_label. split.
  - apply parent_loop_none.
  - intros before mdl e after Hreg Hhas Hafter.
    pose proof (Model_init_binary_named _ _ _ Hinit) as Hnamed.
    assert (forall s, class_mapping e = MStr s -> s = mdl) as Hs.
    { intros s. apply Hnamed. rewrite Hreg.
      apply elem_of_app. right. left. }
    rewrite Hreg, parent_loop_last by done. split.
    + destruct (class_mapping e) as [s|d]; [by apply Hs|done].
    + intros s Hcm. unfold has_label in Hhas. rewrite Hcm in Hhas.
      rewrite Hhas. symmetry. by apply Hs.
Qed.

End ParentModel.

Section ParentModelExamples.
Import Demo.

(** The label "hour" is in the mappings of "timer" and of "clock", loaded in
    this order: the lookup returns the second, not the first; for a label
    that no model has it returns the empty string. *)
Lemma get_parent_model_not_first_match :
  @Model_init runtime ["models/timer.onnx"; "models/clock.onnx"] []
  = inr two_clocks /\
  registry two_clocks = [("timer", timer_entry); ("clock", clock_entry)] /\
  has_label timer_entry "hour" /\ has_label clock_entry "hour" /\
  get_parent_model_from_label two_clocks "hour" = "clock" /\
  get_parent_model_from_label two_clocks "hour" <> "timer" /\
  get_parent_model_from_label two_clocks "hey" = "".
Proof.
  split; [evaluate|]. split; [evaluate|].
  split; [by right; left|]. split; [by left|].
  split; [evaluate|]. split; [|evaluate].
  change (get_parent_model_from_label two_clocks "hour") with "clock".
  discriminate.
Qed.

Lemma get_parent_model_last_match_witness :
  get_parent_model_from_label two_clocks "hour" = "clock" /\
  get_parent_model_from_label two_clocks "minute" = "timer" /\
  get_parent_model_from_label two_clocks "hey" = "".
Proof.
  assert (@Model_init runtime ["models/timer.onnx"; "models/clock.onnx"] []
          = inr two_clocks) as Hinit by evaluate.
  split; [|split].
  - destruct (get_parent_model_last_match _ _ _ "hour" Hinit) as [_ H].
    refine (proj1 (H [(_, _)] _ _ [] eq_refl _ _)).
    + refine (bool_decide_unpack _ _). vm_compute. exact I.
    + intros mdl e Hin. by apply elem_of_nil in Hin.
  - destruct (get_parent_model_last_match _ _ _ "minute" Hinit) as [_ H].
    refine (proj1 (H [] _ _ [(_, _)] eq_refl _ _)).
    + refine (bool_decide_unpack _ _). vm_compute. exact I.
    + intros mdl e Hin. apply list_elem_of_singleton in Hin.
      injection Hin as -> ->.
      refine (bool_decide_unpack _ _). vm_compute. exact I.
  - destruct (get_parent_model_last_match _ _ _ "hey" Hinit) as [H _].
    apply H. intros mdl e Hin.
    apply elem_of_cons in Hin as [Heq|Hin].
    { injection Heq as -> ->.
      refine (bool_decide_unpack _ _). vm_compute. exact I. }
    apply list_elem_of_singleton in Hin. injection Hin as -> ->.
    refine (bool_decide_unpack _ _). vm_compute. exact I.
Defined.

End ParentModelExamples.

(** ** Clips *)

Section Clip.
Context `{RT : Runtime}.

Lemma predict_frames_each data starts patience threshold timing predictions s :
  predict_frames data starts patience threshold timing predictions s
  = match predict_each (map (fun i => Py.slice data i (i + step_size)) starts)
            patience threshold timing s with
    | (s', inr ps) => (s', inr (predictions ++ ps))
    | (s', inl e) => (s', inl e)
    end.
Proof.
  revert predictions s. induction starts as [|i rest IH]; intros predictions s.
  - cbn. by rewrite app_nil_r.
  - cbn [predict_frames map predict_each]. unfold bind.
    destruct (predict _ _ _ _ s) as [s1 [e|p]]; [done|].
    rewrite IH.
    destruct (predict_each _ _ _ _ s1) as [s2 [e|ps]]; [done|].
    cbn. by rewrite <- app_assoc.
Qed.

Lemma predict_each_length fs patience threshold timing s s' results :
  predict_each fs patience threshold timing s = (s', inr results) ->
  length results = length fs.
Proof.
  revert s s' results. induction fs as [|x rest IH]; intros s s' results.
  - cbn. intros [= _ <-]. done.
  - cbn [predict_each]. unfold bind.
    destruct (predict _ _ _ _ s) as [s1 [e|p]]; [done|].
    destruct (predict_each rest _ _ _ s1) as [s2 [e|ps]] eqn:Hrest; [done|].
    cbn. intros [= _ <-]. cbn. f_equal. by eapply IH.
Qed.

(** The frames [predict_clip] cuts from [data]: the first [n] whole frames,
    [n] being the number of multiples of 1280 below [len(data) - 1280]. *)
Lemma clip_frames (data : list Z) (n : nat) :
  (Z.of_nat n - 1) * step_size < Z.of_nat (length data) - step_size
    <= Z.of_nat n * step_size ->
  map (fun i => Py.slice data i (i + step_size))
    (Py.range 0 (Z.of_nat (length data) - step_size) step_size)
  = frames data n.
Proof.
  intros Hn. rewrite (range_count n) by (done || by unfold step_size).
  unfold frames. rewrite map_map. apply map_ext_in. intros i Hi.
  apply in_seq in Hi. unfold frame.
  rewrite <- slice_frame by (unfold step_size in *; lia).
  f_equal; unfold step_size; lia.
Qed.

Lemma length_frames (data : list Z) (n : nat) : length (frames data n) = n.
Proof. unfold frames. by rewrite length_map, length_seq. Qed.

Lemma length_frame (data : list Z) (i : nat) :
  (S i * Z.to_nat step_size <= length data)%nat ->
  length (frame data i) = Z.to_nat step_size.
Proof.
  intros H. unfold frame. rewrite length_take, length_drop. lia.
Qed.

Lemma frames_S (data : list Z) (n : nat) :
  frames data (S n) = frames data n ++ [frame data n].
Proof. unfold frames. by rewrite seq_S, map_app. Qed.

(** The first [n] frames, put end to end, are the first [n * 1280] samples. *)
Lemma concat_frames (data : list Z) (n : nat) :
  (n * Z.to_nat step_size <= length data)%nat ->
  concat (frames data n) = take (n * Z.to_nat step_size) data.
Proof.
  induction n as [|n IH]; intros Hn; [done|].
  rewrite frames_S, concat_app, IH by lia. cbn [concat]. rewrite app_nil_r.
  unfold frame.
  replace (S n * Z.to_nat step_size)%nat
    with (n * Z.to_nat step_size + Z.to_nat step_size)%nat by lia.
  by rewrite take_take_drop.
Qed.

(** Without patience, scoring that never raises makes [predict] return. *)
Lemma run_models_total timing entries acc s :
  (forall mdl e feats predictions, (mdl, e) ∈ entries ->
     exists predictions',
       assign_scores mdl e (session_run (models e) (model_input_names e) feats)
         predictions = inr predictions') ->
  exists s' acc', run_models timing entries acc s = (s', inr acc').
Proof.
  revert acc s. induction entries as [|[mdl e] rest IH]; intros acc s Htotal.
  - cbn. eauto.
  - cbn [run_models]. unfold bind at 1.
    assert (exists s1 acc1, run_model timing mdl e acc s = (s1, inr acc1))
      as (s1 & acc1 & ->).
    { destruct acc as [predictions timing_dict]. unfold run_model.
      unfold bind at 1. destruct (stamp timing s) as [s0 [err|t0]] eqn:Ht0.
      { by destruct timing. }
      unfold bind at 1. cbn [get_self]. unfold bind at 1, lift.
      destruct (Htotal mdl e
                  (get_features (preprocessor (self s0)) (model_inputs e))
                  predictions ltac:(left)) as [p1 ->].
      unfold bind at 1, update_prediction_buffer, bind at 1, get_self.
      destruct (update_buffer p1 _) as [p2 buf2]. cbn [put_self bind ret].
      unfold bind. destruct timing; cbn; eauto. }
    apply IH. intros mdl' e' feats predictions Hin.
    apply Htotal. by right.
Qed.

Lemma predict_total x threshold timing s :
  scoring_total (registry (self s)) ->
  exists s' predictions, predict x ∅ threshold timing s = (s', inr predictions).
Proof.
  intros Htotal. unfold predict. unfold bind at 1.
  assert (exists s1 acc, score_frame x timing s = (s1, inr acc))
    as (s1 & [predictions timing_dict] & ->).
  { unfold score_frame, bind, stamp, time, ret, get_self, put_self.
    destruct timing; cbn; apply run_models_total; apply Htotal. }
  unfold debounce. rewrite (proj2 (nonempty_false (∅ : gmap string Z))) by done.
  unfold bind, ret. destruct timing; cbn; eauto.
Qed.

Lemma predict_each_total fs threshold timing s :
  scoring_total (registry (self s)) ->
  exists s' results, predict_each fs ∅ threshold timing s = (s', inr results).
Proof.
  revert s. induction fs as [|x rest IH]; intros s Htotal.
  - cbn. eauto.
  - cbn [predict_each]. unfold bind at 1.
    pose proof (predict_registry x ∅ threshold timing s) as Hreg.
    destruct (predict_total x threshold timing s Htotal) as (s1 & p & Hp).
    rewrite Hp in *. cbn [fst] in Hreg.
    destruct (IH s1) as (s2 & ps & Hps); [by rewrite Hreg|].
    unfold bind. rewrite Hps. cbn. eauto.
Qed.

End Clip.

Section ClipTheorems.
Context `{RT : Runtime}.

Lemma Forall_length_frames (data : list Z) (n : nat) :
  (n * Z.to_nat step_size <= length data)%nat ->
  Forall (fun x => length x = Z.to_nat step_size) (frames data n).
Proof.
  intros Hn. unfold frames. apply Forall_fmap, Forall_forall.
  intros i Hi. apply list_elem_of_In, in_seq in Hi. cbn beta.
  apply length_frame. change (Z.to_nat step_size) with 1280%nat in *. lia.
Qed.

(** What [predict_clip] returns on data cut in [n] frames. *)
Lemma predict_clip_frames data (n : nat) patience threshold timing s :
  (Z.of_nat n - 1) * step_size < Z.of_nat (length data) - step_size
    <= Z.of_nat n * step_size ->
  predict_frames data
    (Py.range 0 (Z.of_nat (length data) - step_size) step_size)
    patience threshold timing [] s
  = predict_each (frames data n) patience threshold timing s.
Proof.
  intros Hn. rewrite predict_frames_each, (clip_frames data n) by done.
  by destruct (predict_each _ _ _ _ s) as [s' [e|ps]].
Qed.

(** C7: a clip of [N] whole frames and a remainder of [r] samples,
    [0 < r < 1280], read without padding: [predict_clip] is [predict] called
    on the [N] frames of 1280 consecutive samples in order, the remainder is
    passed to no call, a returned list has [N] mappings, and the list is
    returned whenever scoring does not raise and no patience is given. *)
Theorem predict_clip_drops_partial_frame samples (N r : nat)
    patience threshold timing s :
  length samples = (N * 1280 + r)%nat -> (0 < r < 1280)%nat ->
  predict_clip samples 0 patience threshold timing s
  = predict_each (frames samples N) patience threshold timing s /\
  length (frames samples N) = N /\
  Forall (fun x => length x = 1280%nat) (frames samples N) /\
  concat (frames samples N) = take (N * 1280) samples /\
  length (drop (N * 1280) samples) = r /\
  (forall s' results,
      predict_clip samples 0 patience threshold timing s = (s', inr results) ->
      length results = N) /\
  (patience = ∅ -> scoring_total (registry (self s)) ->
   exists s' results,
     predict_clip samples 0 patience threshold timing s = (s', inr results) /\
     length results = N).
Proof.
  intros Hlen Hr.
  assert (predict_clip samples 0 patience threshold timing s
          = predict_each (frames samples N) patience threshold timing s) as Heq.
  { unfold predict_clip, pad. cbn [Z.eqb lift]. unfold bind at 1, lift.
    apply predict_clip_frames. unfold step_size. lia. }
  split; [done|]. split; [apply length_frames|].
  change 1280%nat with (Z.to_nat step_size).
  split; [apply (Forall_length_frames samples N);
          change (Z.to_nat step_size) with 1280%nat; lia|].
  split; [apply (concat_frames samples N);
          change (Z.to_nat step_size) with 1280%nat; lia|].
  change (Z.to_nat step_size) with 1280%nat.
  split; [rewrite length_drop; lia|].
  rewrite Heq. split.
  - intros s' results Hres. apply predict_each_length in Hres.
    by rewrite Hres, length_frames.
  - intros -> Htotal.
    destruct (predict_each_total (frames samples N) threshold timing s Htotal)
      as (s' & results & Hres).
    exists s', results. split; [done|].
    apply predict_each_length in Hres. by rewrite Hres, length_frames.
Qed.

(** C9: when the data of a clip, padding included, is exactly [N >= 1]
    frames long, [predict_clip] is [predict] called on the first [N - 1]
    frames only: the [N]-th frame is a whole frame of the data and is passed
    to no call, a returned list has [N - 1] mappings, and the list is
    returned whenever scoring does not raise and no patience is given. *)
Theorem predict_clip_omits_last_frame samples padding data (N : nat)
    patience threshold timing s :
  pad samples padding = inr data ->
  length data = (N * 1280)%nat -> (1 <= N)%nat ->
  predict_clip samples padding patience threshold timing s
  = predict_each (frames data (N - 1)) patience threshold timing s /\
  frames data N = frames data (N - 1) ++ [frame data (N - 1)] /\
  length (frame data (N - 1)) = 1280%nat /\
  concat (frames data N) = data /\
  (forall s' results,
      predict_clip samples padding patience threshold timing s
      = (s', inr results) ->
      length results = (N - 1)%nat) /\
  (patience = ∅ -> scoring_total (registry (self s)) ->
   exists s' results,
     predict_clip samples padding patience threshold timing s
     = (s', inr results) /\
     length results = (N - 1)%nat).
Proof.
  intros Hpad Hlen HN.
  assert (predict_clip samples padding patience threshold timing s
          = predict_each (frames data (N - 1)) patience threshold timing s)
    as Heq.
  { unfold predict_clip. rewrite Hpad. unfold bind at 1, lift.
    apply predict_clip_frames. unfold step_size. lia. }
  split; [done|].
  split; [replace N with (S (N - 1)) at 1 by lia; apply frames_S|].
  split; [apply length_frame; change (Z.to_nat step_size) with 1280%nat; lia|].
  split.
  { rewrite (concat_frames data N)
      by (change (Z.to_nat step_size) with 1280%nat; lia).
    apply take_ge. change (Z.to_nat step_size) with 1280%nat. lia. }
  rewrite Heq. split.
  - intros s' results Hres. apply predict_each_length in Hres.
    by rewrite Hres, length_frames.
  - intros -> Htotal.
    destruct (predict_each_total (frames data (N - 1)) threshold timing s Htotal)
      as (s' & results & Hres).
    exists s', results. split; [done|].
    apply predict_each_length in Hres. by rewrite Hres, length_frames.
Qed.

End ClipTheorems.

Section ClipExamples.
Import Demo.
#[local] Set Warnings "-inexact-float".

Lemma hey_scoring_total :
  @scoring_total runtime (registry (self (start hey_warm))).
Proof.
  intros mdl e feats predictions Hin.
  apply list_elem_of_singleton in Hin. injection Hin as -> ->.
  eexists. reflexivity.
Defined.

(** 2600 samples are two frames and 40 samples more: two mappings. *)
Lemma predict_clip_drops_partial_frame_witness :
  exists s' results,
    @predict_clip runtime (replicate 2600 9) 0 ∅ ∅ false (start hey_warm)
    = (s', inr results) /\
    length results = 2%nat.
Proof.
  apply (@predict_clip_drops_partial_frame runtime (replicate 2600 9) 2 40
           ∅ ∅ false (start hey_warm)).
  - evaluate.
  - lia.
  - reflexivity.
  - apply hey_scoring_total.
Defined.

(** With one second of padding a clip of one frame is 26 frames long:
    25 mappings. *)
Lemma predict_clip_omits_last_frame_witness :
  exists s' results,
    @predict_clip runtime (replicate 1280 9) 1 ∅ ∅ false (start hey_warm)
    = (s', inr results) /\
    length results = 25%nat.
Proof.
  apply (@predict_clip_omits_last_frame runtime (replicate 1280 9) 1
           (replicate (Z.to_nat 16000) 0 ++ replicate 1280 9
              ++ replicate (Z.to_nat 16000) 0) 26
           ∅ ∅ false (start hey_warm)).
  - evaluate.
  - evaluate.
  - lia.
  - reflexivity.
  - apply hey_scoring_total.
Defined.

End ClipExamples.

(** ** Timing *)

Section Timing.
Context `{RT : Runtime}.

Lemma run_model_timing mdl e predictions timing_dict timing_dict' s s' :
  self s = self s' ->
  self (run_model true mdl e (predictions, timing_dict) s).1
  = self (run_model false mdl e (predictions, timing_dict') s').1 /\
  scores_of (run_model true mdl e (predictions, timing_dict) s).2
  = scores_of (run_model false mdl e (predictions, timing_dict') s').2.
Proof.
  intros Hself.
  unfold run_model, bind, stamp, time, ret, get_self, lift,
    update_prediction_buffer, bind, get_self, put_self, ret.
  cbn [self clock stdout fst snd]. rewrite Hself.
  destruct (assign_scores _ _ _ _) as [err|p1]; [done|].
  destruct (update_buffer p1 _) as [p2 buf2]. done.
Qed.

Lemma run_models_timing entries predictions timing_dict timing_dict' s s' :
  self s = self s' ->
  self (run_models true entries (predictions, timing_dict) s).1
  = self (run_models false entries (predictions, timing_dict') s').1 /\
  scores_of (run_models true entries (predictions, timing_dict) s).2
  = scores_of (run_models false entries (predictions, timing_dict') s').2.
Proof.
  revert predictions timing_dict timing_dict' s s'.
  induction entries as [|[mdl e] rest IH];
    intros predictions timing_dict timing_dict' s s' Hself; [done|].
  cbn [run_models]. unfold bind.
  destruct (run_model_timing mdl e predictions timing_dict timing_dict' s s' Hself)
    as [Hs Hr].
  destruct (run_model true _ _ _ s) as [s1 [e1|[p1 td1]]];
    destruct (run_model false _ _ _ s') as [s2 [e2|[p2 td2]]];
    cbn in Hs, Hr; try done.
  injection Hr as <-. by apply IH.
Qed.

Lemma score_frame_timing x s :
  self (score_frame x true s).1 = self (score_frame x false s).1 /\
  scores_of (score_frame x true s).2 = scores_of (score_frame x false s).2.
Proof.
  unfold score_frame, bind, stamp, time, ret, get_self, put_self.
  cbn [self clock stdout]. by apply run_models_timing.
Qed.

Lemma debounce_timing patience threshold predictions s s' :
  self s = self s' ->
  self (debounce patience threshold predictions s).1
  = self (debounce patience threshold predictions s').1 /\
  (debounce patience threshold predictions s).2
  = (debounce patience threshold predictions s').2.
Proof.
  intros Hself. unfold debounce.
  destruct (nonempty patience); [|done].
  destruct (negb (nonempty threshold)); [done|].
  unfold bind, get_self, lift. by rewrite Hself.
Qed.

(** Without [timing], a call neither reads the clock nor prints. *)
Lemma predict_untimed_silent x patience threshold s :
  clock (predict x patience threshold false s).1 = clock s /\
  stdout (predict x patience threshold false s).1 = stdout s.
Proof.
  assert (forall entries acc s0,
             clock (run_models false entries acc s0).1 = clock s0 /\
             stdout (run_models false entries acc s0).1 = stdout s0) as Hrun.
  { induction entries as [|[mdl e] rest IH]; intros [p td] s0; [by split|].
    cbn [run_models]. unfold bind.
    assert (clock (run_model false mdl e (p, td) s0).1 = clock s0 /\
            stdout (run_model false mdl e (p, td) s0).1 = stdout s0) as Hstep.
    { unfold run_model, bind, stamp, ret, get_self, lift,
        update_prediction_buffer, bind, get_self, put_self, ret.
      destruct (assign_scores _ _ _ _) as [err|p1]; [done|].
      by destruct (update_buffer p1 _) as [p2 buf2]. }
    destruct (run_model false mdl e (p, td) s0) as [s1 [err|acc1]];
      [exact Hstep|].
    cbn [fst] in Hstep. destruct Hstep as [<- <-]. apply IH. }
  unfold predict, bind.
  assert (clock (score_frame x false s).1 = clock s /\
          stdout (score_frame x false s).1 = stdout s) as Hscore.
  { unfold score_frame, bind, stamp, ret, get_self, put_self.
    match goal with
    | |- clock (run_models false ?es ?acc ?s0).1 = _ /\ _ =>
        apply (Hrun es acc s0)
    end. }
  destruct (score_frame x false s) as [s1 [err|[p td]]]; [exact Hscore|].
  cbn [fst] in Hscore. destruct Hscore as [<- <-].
  unfold debounce, ret.
  destruct (nonempty patience); [|done].
  destruct (negb (nonempty threshold)); [done|].
  unfold bind, get_self, lift. by destruct apply_patience.
Qed.

(** C8: two [predict] calls from the same state on the same frame with the
    same patience and threshold, one with [timing] and one without, return
    the same scores or raise the same exception and leave the same
    instance; the call without [timing] neither reads the clock nor
    prints. *)
Theorem timing_does_not_alter_scores x patience threshold s :
  (predict x patience threshold true s).2
  = (predict x patience threshold false s).2 /\
  self (predict x patience threshold true s).1
  = self (predict x patience threshold false s).1 /\
  clock (predict x patience threshold false s).1 = clock s /\
  stdout (predict x patience threshold false s).1 = stdout s.
Proof.
  split; [|split; [|apply predict_untimed_silent]].
  - unfold predict, bind at 1 4.
    destruct (score_frame_timing x s) as [Hs Hr].
    destruct (score_frame x true s) as [s1 [e1|[p1 td1]]];
      destruct (score_frame x false s) as [s2 [e2|[p2 td2]]];
      cbn in Hs, Hr; try done.
    injection Hr as <-. unfold bind.
    destruct (debounce_timing patience threshold p1 s1 s2 Hs) as [_ Hd].
    destruct (debounce _ _ _ s1) as [s1' [e1|q1]];
      destruct (debounce _ _ _ s2) as [s2' [e2|q2]]; cbn in Hd; by try done.
  - unfold predict, bind at 1 4.
    destruct (score_frame_timing x s) as [Hs Hr].
    destruct (score_frame x true s) as [s1 [e1|[p1 td1]]];
      destruct (score_frame x false s) as [s2 [e2|[p2 td2]]];
      cbn in Hs, Hr; try done.
    injection Hr as <-. unfold bind.
    destruct (debounce_timing patience threshold p1 s1 s2 Hs) as [Hd1 Hd2].
    destruct (debounce _ _ _ s1) as [s1' [e1|q1]];
      destruct (debounce _ _ _ s2) as [s2' [e2|q2]]; cbn in Hd1, Hd2; by try done.
Qed.

End Timing.

Section TimingExamples.
Import Demo.

(** With [timing] the clock is read six times for two models and one
    dictionary is printed; the entries under "models" are named after the
    last label scored, not after the model, and come in sorted order. *)
Example predict_with_timing_prints :
  clock (@predict runtime [7] ∅ ∅ true (start two_clocks)).1 = 6%nat /\
  map (map (fun kv => (kv.1, Dict.keys kv.2)))
    (stdout (@predict runtime [7] ∅ ∅ true (start two_clocks)).1)
  = [[("models", ["alarm"; "preprocessor"; "second"])]].
Proof. split; evaluate. Qed.

End TimingExamples.

(** ** Model names *)

Section Strip.
Implicit Types (chars s p : list ascii) (c : ascii).

Lemma lstrip_suffix chars s : exists p, s = p ++ Py.lstrip chars s.
Proof.
  induction s as [|c s [p IH]]; [by exists []|]. cbn [Py.lstrip].
  destruct (Py.in_chars chars c).
  - exists (c :: p). cbn. by f_equal.
  - by exists [].
Qed.

Lemma lstrip_length chars s : (length (Py.lstrip chars s) <= length s)%nat.
Proof.
  destruct (lstrip_suffix chars s) as [p Hp].
  rewrite Hp at 2. rewrite length_app. lia.
Qed.

Lemma lstrip_all chars p s :
  forallb (Py.in_chars chars) p = true ->
  Py.lstrip chars (p ++ s) = Py.lstrip chars s.
Proof.
  induction p as [|c p IH]; [done|]. cbn. intros H.
  apply andb_true_iff in H as [-> H]. by apply IH.
Qed.

Lemma lstrip_app chars s p :
  Py.lstrip chars s <> [] -> Py.lstrip chars (s ++ p) = Py.lstrip chars s ++ p.
Proof.
  induction s as [|c s IH]; [done|]. cbn [Py.lstrip app].
  destruct (Py.in_chars chars c); [apply IH|done].
Qed.

Lemma rstrip_length chars s : (length (Py.rstrip chars s) <= length s)%nat.
Proof.
  unfold Py.rstrip. rewrite length_rev.
  etrans; [apply lstrip_length|]. by rewrite length_rev.
Qed.

Lemma rstrip_all chars s p :
  forallb (Py.in_chars chars) p = true ->
  Py.rstrip chars (s ++ p) = Py.rstrip chars s.
Proof.
  intros H. unfold Py.rstrip. rewrite rev_app_distr, lstrip_all; [done|].
  rewrite forallb_forall in *. intros c Hc. apply H. by apply in_rev.
Qed.

(** A suffix made of characters of the set is stripped whole: what is left
    is the strip of the rest. *)
Lemma strip_trailing_chars chars s p :
  forallb (Py.in_chars chars) p = true ->
  Py.strip chars (s ++ p) = Py.strip chars s.
Proof.
  intros H. unfold Py.strip.
  destruct (Py.lstrip chars s) as [|c t] eqn:Hl.
  - destruct (lstrip_suffix chars s) as [q Hq]. rewrite Hl, app_nil_r in Hq.
    subst q.
    assert (forallb (Py.in_chars chars) s = true) as Hs.
    { clear H. induction s as [|c s IH]; [done|]. cbn in Hl |- *.
      destruct (Py.in_chars chars c); [|done]. by apply IH. }
    rewrite lstrip_all by done.
    rewrite <- (app_nil_r p), lstrip_all by done. done.
  - rewrite lstrip_app by (by rewrite Hl). rewrite Hl. by apply rstrip_all.
Qed.

Lemma strip_length chars s : (length (Py.strip chars s) <= length s)%nat.
Proof.
  unfold Py.strip. etrans; [apply rstrip_length|]. apply lstrip_length.
Qed.

(** A first character of the set is removed. *)
Lemma strip_head chars c s :
  Py.in_chars chars c = true ->
  (length (Py.strip chars (c :: s)) < length (c :: s))%nat.
Proof.
  intros Hc. unfold Py.strip. cbn [Py.lstrip]. rewrite Hc. cbn [length].
  pose proof (rstrip_length chars (Py.lstrip chars s)).
  pose proof (lstrip_length chars s). lia.
Qed.

(** A last character of the set is removed. *)
Lemma strip_last chars c s :
  Py.in_chars chars c = true ->
  (length (Py.strip chars (s ++ [c])) < length (s ++ [c]))%nat.
Proof.
  intros Hc.
  rewrite strip_trailing_chars by (cbn [forallb]; by rewrite Hc).
  rewrite length_app. cbn [length].
  pose proof (strip_length chars s). lia.
Qed.

Lemma list_ascii_of_string_app (a b : string) :
  list_ascii_of_string (String.append a b)
  = list_ascii_of_string a ++ list_ascii_of_string b.
Proof.
  induction a as [|c a IH]; [done|].
  change (c :: list_ascii_of_string (String.append a b)
          = c :: (list_ascii_of_string a ++ list_ascii_of_string b)).
  by f_equal.
Qed.

End Strip.

Section ModelNames.
Context `{RT : Runtime}.

Lemma length_string_of_list_ascii (l : list ascii) :
  String.length (string_of_list_ascii l) = length l.
Proof. induction l as [|c l IH]; [done|]. cbn. by f_equal. Qed.

Lemma length_list_ascii_of_string (s : string) :
  length (list_ascii_of_string s) = String.length s.
Proof. induction s as [|c s IH]; [done|]. cbn. by f_equal. Qed.

Lemma mdl_name_of_basename mdl_path :
  mdl_name_of mdl_path
  = string_of_list_ascii
      (Py.strip onnx_chars (list_ascii_of_string (basename mdl_path))).
Proof.
  unfold mdl_name_of, basename, onnx_chars.
  by rewrite list_ascii_of_string_of_list_ascii.
Qed.

(** The name registered for a path whose final component is
    [stem ++ ".onnx"] is [stem] stripped of the characters of the set. *)
Lemma mdl_name_of_stem mdl_path stem :
  basename mdl_path = String.append stem ".onnx" ->
  mdl_name_of mdl_path
  = string_of_list_ascii (Py.strip onnx_chars (list_ascii_of_string stem)).
Proof.
  intros Hbase. rewrite mdl_name_of_basename, Hbase.
  rewrite list_ascii_of_string_app.
  by rewrite strip_trailing_chars.
Qed.

Lemma strip_shortens stem :
  begins_or_ends_with onnx_chars stem ->
  (length (Py.strip onnx_chars (list_ascii_of_string stem))
   < String.length stem)%nat.
Proof.
  intros (c & rest & Hc & [->| ->]).
  - rewrite <- length_list_ascii_of_string.
    change (list_ascii_of_string (String c rest))
      with (c :: list_ascii_of_string rest).
    by apply strip_head.
  - rewrite <- length_list_ascii_of_string.
    rewrite list_ascii_of_string_app.
    change (list_ascii_of_string (String c "")) with [c].
    by apply strip_last.
Qed.

(** C10: for a path whose final component is [stem ++ ".onnx"], the name
    registered is [stem] with every leading and trailing character of the
    set of '.', 'o', 'n', 'x' removed; when [stem] begins or ends with such
    a character the name is shorter than [stem], and it is under this name,
    not under [stem], that a one-output model is registered, labelled and
    found as a parent. *)
Theorem strip_onnx_changes_name mdl_path stem sess pre :
  basename mdl_path = String.append stem ".onnx" ->
  begins_or_ends_with onnx_chars stem ->
  ort_InferenceSession mdl_path = inr sess ->
  Py.contains (list_ascii_of_string "{")
    (list_ascii_of_string (output_name sess)) = false ->
  mdl_name_of mdl_path
  = string_of_list_ascii (Py.strip onnx_chars (list_ascii_of_string stem)) /\
  (String.length (mdl_name_of mdl_path) < String.length stem)%nat /\
  mdl_name_of mdl_path <> stem /\
  exists m e,
    Model_init [mdl_path] pre = inr m /\
    registry m = [(mdl_name_of mdl_path, e)] /\
    class_mapping e = MStr (mdl_name_of mdl_path) /\
    get_parent_model_from_label m (mdl_name_of mdl_path) = mdl_name_of mdl_path /\
    get_parent_model_from_label m stem = "".
Proof.
  intros Hbase Hstem Hsess Hname.
  pose proof (mdl_name_of_stem _ _ Hbase) as Hstrip.
  assert (String.length (mdl_name_of mdl_path) < String.length stem)%nat as Hlt.
  { rewrite Hstrip, length_string_of_list_ascii. by apply strip_shortens. }
  assert (mdl_name_of mdl_path <> stem) as Hne.
  { intros Heq. rewrite Heq in Hlt. lia. }
  split; [done|]. split; [done|]. split; [done|].
  eexists _, _. split.
  { unfold Model_init, load_models, load_model.
    rewrite Hsess. cbn [rbind]. rewrite Hname. cbn [rbind Dict.set].
    reflexivity. }
  cbn [registry class_mapping]. split; [done|]. split; [done|].
  unfold get_parent_model_from_label. cbn [registry parent_loop class_mapping].
  rewrite String.eqb_refl. split; [done|].
  destruct (String.eqb_spec stem (mdl_name_of mdl_path)); [congruence|done].
Qed.

End ModelNames.

Section ModelNamesExamples.
Import Demo.

(** "models/oxen.onnx" is registered as "e". *)
Lemma strip_onnx_changes_name_witness :
  mdl_name_of "models/oxen.onnx" = "e" /\
  mdl_name_of "models/oxen.onnx" <> "oxen" /\
  exists m e,
    @Model_init runtime ["models/oxen.onnx"] [] = inr m /\
    registry m = [("e", e)] /\
    get_parent_model_from_label m "oxen" = "".
Proof.
  destruct (@strip_onnx_changes_name runtime "models/oxen.onnx" "oxen"
              binary_session [])
    as (Hname & _ & Hne & m & e & Hinit & Hreg & _ & _ & Hparent).
  - reflexivity.
  - exists "o"%char, "xen". split; [reflexivity|by left].
  - reflexivity.
  - reflexivity.
  - split; [reflexivity|]. split; [done|].
    exists m, e. split; [done|]. split; [done|]. done.
Defined.

End ModelNamesExamples.

(** ** Appends per call *)

Section AppendsPerCall.
Context `{RT : Runtime}.

Lemma NoDup_keys_functional {V} (d : odict V) k (v1 v2 : V) :
  NoDup (Dict.keys d) -> (k, v1) ∈ d -> (k, v2) ∈ d -> v1 = v2.
Proof.
  induction d as [|[k0 v0] d IH]; intros Hnd H1 H2.
  { by apply elem_of_nil in H1. }
  cbn [Dict.keys map fst] in Hnd. apply NoDup_cons in Hnd as [Hk0 Hnd].
  assert (forall v, (k0, v) ∈ d -> False) as Hfresh.
  { intros v Hv. apply Hk0. apply list_elem_of_fmap. by exists (k0, v). }
  apply elem_of_cons in H1 as [E1|H1]; apply elem_of_cons in H2 as [E2|H2].
  - congruence.
  - injection E1 as -> ->. by destruct (Hfresh v2).
  - injection E2 as -> ->. by destruct (Hfresh v1).
  - by apply IH.
Qed.

(** With one model registered, a call appends once to the buffer of each
    label scored and leaves the other buffers as they were. *)
Lemma single_model_appends_once x timing s mdl e s1 predictions timing_dict :
  registry (self s) = [(mdl, e)] ->
  score_frame x timing s = (s1, inr (predictions, timing_dict)) ->
  (forall l v, (l, v) ∈ predictions ->
     exists raw, (v, buffer (self s1) l) = append_score (buffer (self s) l) raw) /\
  (forall l, l ∉ Dict.keys predictions -> buffer (self s1) l = buffer (self s) l).
Proof.
  intros Hreg. unfold score_frame, bind, stamp, time, ret, get_self, put_self.
  destruct timing; cbn [self clock stdout prediction_buffer preprocessor registry].
  all: rewrite Hreg; cbn [run_models].
  all: unfold bind, run_model, bind, stamp, time,
    ret, get_self, lift, update_prediction_buffer, bind, get_self, put_self, ret.
  all: cbn [self clock stdout prediction_buffer preprocessor registry].
  all: destruct (assign_scores _ _ _ _) as [err|p1] eqn:Hassign; [done|].
  all: pose proof (assign_scores_NoDup _ _ _ _ _ (NoDup_nil_2 : NoDup (Dict.keys []))
                     Hassign) as Hnd.
  all: pose proof (update_buffer_keys p1 (prediction_buffer (self s))) as Hkeys.
  all: pose proof (fun l v => update_buffer_lookup p1 (prediction_buffer (self s))
                                l v Hnd) as Hlookup.
  all: pose proof (fun l => update_buffer_other p1 (prediction_buffer (self s)) l)
         as Hother.
  all: destruct (update_buffer p1 _) as [p2 buf2]; cbn [fst snd] in *.
  all: intros [= <- <- <-]; unfold buffer; cbn [self prediction_buffer].
  all: split; [|by intros l Hl; rewrite Hother by (by rewrite <- Hkeys)].
  all: intros l v Hin.
  all: assert (exists raw, (l, raw) ∈ p1) as [raw Hraw].
  1,3: (assert (l ∈ Dict.keys p1) as Hl
         by (rewrite <- Hkeys; apply list_elem_of_fmap; by exists (l, v));
        apply list_elem_of_fmap in Hl as [[l' raw] [-> Hl]]; by exists raw).
  all: exists raw; destruct (Hlookup l raw Hraw) as [Hv Hbuf]; rewrite Hbuf.
  all: cbn [default].
  all: destruct (append_score (default [] (prediction_buffer (self s) !! l)) raw)
         as [v' d'] eqn:Hs; cbn [fst snd] in *.
  all: assert (NoDup (Dict.keys p2)) as Hnd2 by (by rewrite Hkeys).
  all: by rewrite (NoDup_keys_functional p2 l v v' Hnd2 Hin Hv).
Qed.

End AppendsPerCall.

Section AppendsPerCallExamples.
Import Demo.
#[local] Set Warnings "-inexact-float".

(** C4, on the code: with two binary models, "hey" registered first, one
    call appends twice to the buffer of "hey" and once to the buffer of
    "alexa", and on the fourth frame "hey" has left its cold start while
    "alexa" has not. *)
Theorem two_models_append_twice :
  length (buffer (self (@predict runtime [9] ∅ ∅ false (start hey_alexa)).1)
            "hey") = 2%nat /\
  length (buffer (self (@predict runtime [9] ∅ ∅ false (start hey_alexa)).1)
            "alexa") = 1%nat /\
  (@predict_each runtime [[9]; [9]; [9]; [9]] ∅ ∅ false (start hey_alexa)).2
  = inr [ [("hey", 0%float); ("alexa", 0%float)];
          [("hey", 0%float); ("alexa", 0%float)];
          [("hey", 0%float); ("alexa", 0%float)];
          [("hey", 0.9%float); ("alexa", 0%float)] ].
Proof. split; [evaluate|]. split; evaluate. Qed.

End AppendsPerCallExamples.

(** ** What patience changes and what it does not *)

Section PatienceEffects.
Context `{RT : Runtime}.

(** The instance a call leaves is the one the scoring phase leaves. *)
Lemma predict_self x patience threshold timing s :
  self (predict x patience threshold timing s).1
  = self (score_frame x timing s).1.
Proof.
  unfold predict, bind.
  destruct (score_frame x timing s) as [s1 [e|[predictions timing_dict]]];
    [done|].
  unfold debounce.
  destruct (nonempty patience).
  - destruct (negb (nonempty threshold)); [done|].
    unfold bind, get_self, lift.
    destruct (apply_patience _ _ _ _) as [e|r]; [done|]. by destruct timing.
  - unfold ret. by destruct timing.
Qed.

Lemma predict_returns_scored x patience threshold timing s s2 result :
  predict x patience threshold timing s = (s2, inr result) ->
  exists s1 predictions timing_dict,
    score_frame x timing s = (s1, inr (predictions, timing_dict)).
Proof.
  unfold predict, bind.
  destruct (score_frame x timing s) as [s1 [e|[predictions timing_dict]]];
    [done|]. eauto.
Qed.

(** What a call without patience returns: the scores of the scoring phase. *)
Lemma predict_without_patience x threshold timing s s1 predictions timing_dict :
  score_frame x timing s = (s1, inr (predictions, timing_dict)) ->
  (predict x ∅ threshold timing s).2 = inr predictions.
Proof.
  intros Hscore. rewrite (predict_after_scoring _ _ _ _ _ _ _ _ Hscore).
  unfold debounce.
  by rewrite (proj2 (nonempty_false (∅ : gmap string Z))).
Qed.

Lemma debounce_rule_cases m patience threshold l v :
  debounce_rule m patience threshold l v = v \/
  debounce_rule m patience threshold l v = fzero.
Proof.
  unfold debounce_rule. cbn zeta.
  destruct (patience !! _) as [k|]; [|by left].
  destruct (threshold !! _) as [t|]; [|by left].
  destruct (_ <? _); [by right|by left].
Qed.

(** What a returning call with patience returns. *)
Lemma predict_returns_rule x patience threshold timing s s1 predictions
    timing_dict s2 result :
  score_frame x timing s = (s1, inr (predictions, timing_dict)) ->
  predict x patience threshold timing s = (s2, inr result) ->
  result = predictions \/
  result = map (fun lv =>
                  (lv.1, debounce_rule (self s1) patience threshold lv.1 lv.2))
             predictions.
Proof.
  intros Hscore. rewrite (predict_after_scoring _ _ _ _ _ _ _ _ Hscore).
  unfold debounce. destruct (nonempty patience).
  - destruct (negb (nonempty threshold)); [done|].
    unfold bind, get_self, lift.
    destruct (apply_patience _ _ _ _) as [err|r] eqn:Hr; [done|].
    apply apply_patience_returns in Hr as Hcov.
    rewrite apply_patience_covered in Hr by done. injection Hr as <-.
    intros [= _ <-]. by right.
  - unfold ret. intros [= _ <-]. by left.
Qed.

(** X1: the instance that a [predict] call leaves -- buffers, feature
    extractor, registry -- is the same for every patience, threshold and
    timing argument, whether the call returns or raises: the scores that the
    debounce forces to 0.0 are not written to the buffer, and a call that
    raises on its thresholds has buffered the frame all the same. *)
Theorem predict_instance_independent_of_options x s
    patience threshold timing patience' threshold' timing' :
  self (predict x patience threshold timing s).1
  = self (predict x patience' threshold' timing' s).1.
Proof.
  rewrite !predict_self.
  destruct (score_frame_timing x s) as [H _].
  destruct timing, timing'; congruence.
Qed.

(** X2: a [predict] call that returns with patience returns the labels that
    the call without patience returns from the same state, in the same
    order, and for each label the same score or 0.0: the debounce adds no
    label, drops none and raises no score. *)
Theorem debounce_only_zeroes x patience threshold timing s s2 result :
  predict x patience threshold timing s = (s2, inr result) ->
  exists plain,
    (predict x ∅ ∅ timing s).2 = inr plain /\
    Forall2 (fun a b => a.1 = b.1 /\ (a.2 = b.2 \/ a.2 = fzero)) result plain.
Proof.
  intros Hret.
  destruct (predict_returns_scored _ _ _ _ _ _ _ Hret)
    as (s1 & predictions & timing_dict & Hscore).
  exists predictions. split; [by eapply predict_without_patience|].
  destruct (predict_returns_rule _ _ _ _ _ _ _ _ _ _ Hscore Hret) as [->| ->].
  - apply Forall2_same_length_lookup. split; [done|].
    intros i a b Ha Hb. assert (a = b) as -> by congruence. auto.
  - apply Forall2_fmap_l, Forall_Forall2_diag, Forall_forall.
    intros [l v] _. cbn. split; [done|]. apply debounce_rule_cases.
Qed.

End PatienceEffects.

(** ** When the debounce lets a score through *)

Section Consecutive.
Context `{RT : Runtime}.

Lemma length_filter_all {A} (P : A -> Prop) `{!forall x, Decision (P x)}
    (l : list A) :
  length (filter P l) = length l <-> Forall P l.
Proof.
  induction l as [|x l IH]; [by split; [constructor|]|].
  rewrite filter_cons. destruct (decide (P x)) as [Hx|Hx]; cbn [length].
  - rewrite Forall_cons. split.
    + intros [= Hl]. split; [done|]. by apply IH.
    + intros [_ Hl]. f_equal. by apply IH.
  - pose proof (length_filter P l). split; [lia|].
    intros Hl. by apply Forall_cons in Hl as [? _].
Qed.

Lemma length_trailing {A} (k : Z) (d : list A) :
  length (trailing k d) = Nat.min (Z.to_nat k) (length d).
Proof. unfold trailing. rewrite length_drop. lia. Qed.

(** For a patience of at least one, the count reaches the patience exactly
    when the buffer holds that many entries and each of the last ones is at
    least the threshold. *)
Lemma count_reaches_patience (d : list pyfloat) (k : Z) (t : pyfloat) :
  1 <= k ->
  (count_ge (trailing k d) t <? k) = false <->
  k <= Z.of_nat (length d) /\
  Forall (fun u => fge u t = true) (trailing k d).
Proof.
  intros Hk. rewrite Z.ltb_ge. unfold count_ge.
  rewrite <- (length_filter_all (fun s => fge s t = true)).
  pose proof (length_trailing k d) as Hlen.
  remember (filter (fun s => fge s t = true) (trailing k d)) as w eqn:Hw.
  assert (length w <= length (trailing k d))%nat as Hle
    by (subst w; apply length_filter).
  split.
  - intros H. split; lia.
  - intros [H1 H2]. lia.
Qed.

Lemma elem_of_rule_map m patience threshold predictions l v' :
  (l, v') ∈ map (fun lv =>
                   (lv.1, debounce_rule m patience threshold lv.1 lv.2))
              predictions ->
  exists v, (l, v) ∈ predictions /\ v' = debounce_rule m patience threshold l v.
Proof.
  intros Hin. apply list_elem_of_fmap in Hin as [[l0 v] [Heq Hin]].
  cbn in Heq. injection Heq as -> ->. eauto.
Qed.

(** What a returned score is, for a label whose parent has patience. *)
Lemma predict_returns_debounced x patience threshold timing s s2 result l v' k :
  predict x patience threshold timing s = (s2, inr result) ->
  (l, v') ∈ result ->
  patience !! get_parent_model_from_label (self s2) l = Some k ->
  exists v t,
    last (buffer (self s2) l) = Some v /\
    threshold !! get_parent_model_from_label (self s2) l = Some t /\
    v' = if count_ge (trailing k (buffer (self s2) l)) t <? k then fzero else v.
Proof.
  intros Hret Hin Hk.
  destruct (predict_returns_scored _ _ _ _ _ _ _ Hret)
    as (s1 & predictions & timing_dict & Hscore).
  pose proof (score_frame_just_appended _ _ _ _ _ Hscore) as [_ Hlast].
  assert (self s2 = self s1) as Hself.
  { pose proof (predict_self x patience threshold timing s) as H.
    by rewrite Hret, Hscore in H. }
  rewrite Hself in *.
  assert (nonempty patience = true) as Hpat.
  { apply nonempty_true. intros ->. by rewrite lookup_empty in Hk. }
  revert Hret. rewrite (predict_after_scoring _ _ _ _ _ _ _ _ Hscore).
  unfold debounce. rewrite Hpat.
  destruct (negb (nonempty threshold)); [done|].
  unfold bind, get_self, lift.
  destruct (apply_patience _ _ _ _) as [err|r] eqn:Hr; [done|].
  apply apply_patience_returns in Hr as Hcov.
  rewrite apply_patience_covered in Hr by done. injection Hr as <-.
  intros [= _ <-].
  apply elem_of_rule_map in Hin as (v & Hv & ->).
  assert (get_parent_model_from_label (self s1) l ∈ dom threshold) as Ht.
  { apply Hcov; [|by apply (elem_of_dom_2 _ _ _ Hk)].
    apply list_elem_of_fmap. by exists (l, v). }
  apply elem_of_dom in Ht as [t Ht].
  exists v, t. split; [by apply Hlast|]. split; [done|].
  unfold debounce_rule. cbn zeta. by rewrite Hk, Ht.
Qed.

(** X3: in a returning [predict] call, for a label whose parent model has a
    patience [k] of at least one, the score returned is the score just
    buffered when the buffer holds at least [k] entries and each of its last
    [k] entries is at least the parent's threshold, and 0.0 in every other
    case; for a patience of zero or less it is the score just buffered. *)
Theorem patience_needs_consecutive_frames x patience threshold timing s s2
    result l v' k :
  predict x patience threshold timing s = (s2, inr result) ->
  (l, v') ∈ result ->
  patience !! get_parent_model_from_label (self s2) l = Some k ->
  exists v t,
    last (buffer (self s2) l) = Some v /\
    threshold !! get_parent_model_from_label (self s2) l = Some t /\
    (k <= 0 -> v' = v) /\
    (1 <= k ->
     k <= Z.of_nat (length (buffer (self s2) l)) ->
     Forall (fun u => fge u t = true) (trailing k (buffer (self s2) l)) ->
     v' = v) /\
    (1 <= k ->
     ~ (k <= Z.of_nat (length (buffer (self s2) l)) /\
        Forall (fun u => fge u t = true) (trailing k (buffer (self s2) l))) ->
     v' = fzero).
Proof.
  intros Hret Hin Hk.
  destruct (predict_returns_debounced _ _ _ _ _ _ _ _ _ _ Hret Hin Hk)
    as (v & t & Hlast & Ht & ->).
  exists v, t. split; [done|]. split; [done|]. split; [|split].
  - intros Hle.
    pose proof (count_ge_nonneg (trailing k (buffer (self s2) l)) t).
    assert ((count_ge (trailing k (buffer (self s2) l)) t <? k) = false) as ->
      by (apply Z.ltb_ge; lia). done.
  - intros Hpos Hlen Hall.
    by rewrite (proj2 (count_reaches_patience _ _ _ Hpos) (conj Hlen Hall)).
  - intros Hpos Hnot.
    destruct (count_ge _ _ <? k) eqn:Hc; [done|].
    by apply count_reaches_patience in Hc.
Qed.

(** X4: from a state whose buffers hold at most 30 entries, as every state
    reached from creation or [reset] does, a returning [predict] call
    returns 0.0 for every label whose parent model has a patience above 30:
    the buffer can never hold that many entries. *)
Theorem patience_above_capacity_suppresses x patience threshold timing s s2
    result l v' k :
  (forall l, (length (buffer (self s) l) <= maxlen)%nat) ->
  predict x patience threshold timing s = (s2, inr result) ->
  (l, v') ∈ result ->
  patience !! get_parent_model_from_label (self s) l = Some k ->
  Z.of_nat maxlen < k ->
  v' = fzero.
Proof.
  intros Hbound Hret Hin Hk Hbig.
  pose proof (predict_buffers (fun d => (length d <= maxlen)%nat)
                x patience threshold timing s
                (fun d v => append_score_bounded d v) Hbound l) as Hlen.
  pose proof (predict_registry x patience threshold timing s) as Hreg.
  rewrite Hret in Hlen, Hreg. cbn [fst] in Hlen, Hreg.
  assert (get_parent_model_from_label (self s2) l
          = get_parent_model_from_label (self s) l) as Hparent
    by (unfold get_parent_model_from_label; by rewrite Hreg).
  rewrite <- Hparent in Hk.
  destruct (predict_returns_debounced _ _ _ _ _ _ _ _ _ _ Hret Hin Hk)
    as (v & t & _ & _ & ->).
  destruct (count_ge _ _ <? k) eqn:Hc; [done|].
  apply count_reaches_patience in Hc as [Hc _]; lia.
Qed.

End Consecutive.

Section PatienceEffectsExamples.
Import Demo.
#[local] Set Warnings "-inexact-float".

Lemma hey_warm_bounded l :
  (length (@buffer runtime (self (start hey_warm)) l) <= maxlen)%nat.
Proof.
  unfold buffer, start, hey_warm, instance. cbn [self prediction_buffer].
  destruct (decide (l = "hey")) as [->|Hne].
  - rewrite lookup_singleton_eq. cbn. unfold maxlen. lia.
  - rewrite lookup_singleton_ne by done. cbn. unfold maxlen. lia.
Defined.

(** The window [0.6; 0.4; 0.7] under patience 3: "hey" is returned with 0.0
    where the call without patience returns 0.7. *)
Lemma debounce_only_zeroes_witness :
  exists plain,
    (@predict runtime [7] ∅ ∅ false (start hey_warm)).2 = inr plain /\
    Forall2 (fun a b => a.1 = b.1 /\ (a.2 = b.2 \/ a.2 = 0%float))
      [("hey", 0%float)] plain.
Proof.
  apply (@debounce_only_zeroes runtime [7] {[ "hey" := 3 ]}
           {[ "hey" := 0.5%float ]} false (start hey_warm)
           (@predict runtime [7] {[ "hey" := 3 ]} {[ "hey" := 0.5%float ]}
              false (start hey_warm)).1).
  evaluate.
Defined.

Lemma patience_needs_consecutive_frames_witness :
  exists v t,
    last [0; 0; 0; 0; 0; 0.6; 0.4; 0.7]%float = Some v /\
    ({[ "hey" := 0.5%float ]} : gmap string float) !! "hey" = Some t /\
    (0%float = v \/ 0%float = 0%float).
Proof.
  destruct (@patience_needs_consecutive_frames runtime [7] {[ "hey" := 3 ]}
              {[ "hey" := 0.5%float ]} false (start hey_warm)
              (@predict runtime [7] {[ "hey" := 3 ]} {[ "hey" := 0.5%float ]}
                 false (start hey_warm)).1
              [("hey", 0%float)] "hey" 0%float 3)
    as (v & t & Hlast & Ht & _).
  - evaluate.
  - left.
  - evaluate.
  - exists v, t. split; [|split].
    + etrans; [|exact Hlast]. evaluate.
    + etrans; [|exact Ht]. evaluate.
    + by right.
Defined.

(** With a patience of 31 the score 0.7 is returned as 0.0, whatever the
    threshold. *)
Lemma patience_above_capacity_suppresses_witness :
  (@predict runtime [7] {[ "hey" := 31 ]} {[ "hey" := 0.5%float ]} false
     (start hey_warm)).2 = inr [("hey", 0%float)] /\
  (0%float : @pyfloat runtime) = fzero.
Proof.
  split; [evaluate|].
  apply (@patience_above_capacity_suppresses runtime [7] {[ "hey" := 31 ]}
           {[ "hey" := 0.5%float ]} false (start hey_warm)
           (@predict runtime [7] {[ "hey" := 31 ]} {[ "hey" := 0.5%float ]}
              false (start hey_warm)).1
           [("hey", 0%float)] "hey" 0%float 31).
  - apply hey_warm_bounded.
  - evaluate.
  - left.
  - evaluate.
  - unfold maxlen. lia.
Defined.

End PatienceEffectsExamples.

(** ** The labels of a frame *)

Section Labels.
Context `{RT : Runtime}.

Lemma elem_of_keys_set {V} (k l : string) (v : V) (d : odict V) :
  l ∈ Dict.keys (Dict.set k v d) <-> l = k \/ l ∈ Dict.keys d.
Proof.
  destruct (decide (k ∈ Dict.keys d)) as [Hin|Hout].
  - rewrite keys_set_in by done. split; [by right|].
    intros [->|?]; done.
  - rewrite keys_set_fresh by done. rewrite elem_of_app, list_elem_of_singleton.
    tauto.
Qed.

Lemma assign_classes_keys prediction items predictions predictions' :
  assign_classes prediction items predictions = inr predictions' ->
  forall l, l ∈ Dict.keys predictions' <->
            l ∈ Dict.keys predictions \/ l ∈ Dict.values items.
Proof.
  revert predictions. induction items as [|[int_label cls] rest IH];
    intros predictions Hassign l; cbn [assign_classes] in Hassign.
  - injection Hassign as <-. cbn. rewrite elem_of_nil. tauto.
  - destruct (py_int int_label) as [e|i]; [done|]. cbn [rbind] in Hassign.
    destruct (Py.index prediction i) as [v|]; [|done]. cbn in Hassign.
    rewrite (IH _ Hassign), elem_of_keys_set.
    cbn [Dict.values map snd]. rewrite elem_of_cons. tauto.
Qed.

Lemma assign_scores_keys mdl e prediction predictions predictions' :
  assign_scores mdl e prediction predictions = inr predictions' ->
  forall l, l ∈ Dict.keys predictions' <->
            l ∈ Dict.keys predictions \/ l ∈ labels_of mdl e.
Proof.
  unfold assign_scores, labels_of. intros Hassign l.
  destruct (model_outputs e =? 1).
  - destruct (Py.index prediction 0) as [v|]; [|done]. cbn in Hassign.
    injection Hassign as <-.
    rewrite elem_of_keys_set, list_elem_of_singleton. tauto.
  - destruct (class_mapping e) as [s|d]; [done|].
    by apply (assign_classes_keys _ _ _ _ Hassign).
Qed.

(** A model with a plain label and more than one output cannot be scored. *)
Lemma assign_scores_mapping mdl e prediction predictions predictions' :
  assign_scores mdl e prediction predictions = inr predictions' ->
  model_outputs e = 1 \/ exists d, class_mapping e = MDict d.
Proof.
  unfold assign_scores. intros Hassign.
  destruct (Z.eqb_spec (model_outputs e) 1); [by left|].
  destruct (class_mapping e) as [s|d]; [done|]. right. eauto.
Qed.

(** A returning pass over one model: scores assigned, then buffered. *)
Lemma run_model_returns timing mdl e predictions timing_dict s s' acc' :
  run_model timing mdl e (predictions, timing_dict) s = (s', inr acc') ->
  exists assigned,
    assign_scores mdl e
      (session_run (models e) (model_input_names e)
         (get_features (preprocessor (self s)) (model_inputs e)))
      predictions = inr assigned /\
    (acc'.1, prediction_buffer (self s'))
    = update_buffer assigned (prediction_buffer (self s)) /\
    registry (self s') = registry (self s) /\
    preprocessor (self s') = preprocessor (self s).
Proof.
  unfold run_model, bind, stamp, time, ret, get_self, lift,
    update_prediction_buffer, bind, get_self, put_self, ret.
  destruct timing; cbn [self clock stdout prediction_buffer preprocessor registry].
  all: destruct (assign_scores _ _ _ _) as [err|assigned]; [done|].
  all: destruct (update_buffer assigned _) as [p2 buf2] eqn:Hupd.
  all: intros [= <- <-]; exists assigned; cbn [self fst prediction_buffer].
  all: by rewrite Hupd.
Qed.

Lemma run_models_returns_keys timing entries acc s s' acc' :
  run_models timing entries acc s = (s', inr acc') ->
  (forall l, l ∈ Dict.keys acc'.1 <->
     l ∈ Dict.keys acc.1 \/
     exists mdl e, (mdl, e) ∈ entries /\ l ∈ labels_of mdl e) /\
  (forall mdl e, (mdl, e) ∈ entries ->
     model_outputs e = 1 \/ exists d, class_mapping e = MDict d).
Proof.
  revert acc s. induction entries as [|[mdl e] rest IH]; intros acc s Hrun;
    cbn [run_models] in Hrun.
  - injection Hrun as <- <-. split.
    + intros l. split; [by left|]. intros [?|(mdl & e & Hin & _)]; [done|].
      by apply elem_of_nil in Hin.
    + intros mdl e Hin. by apply elem_of_nil in Hin.
  - unfold bind in Hrun. destruct acc as [predictions timing_dict].
    destruct (run_model timing mdl e _ s) as [s1 [err|acc1]] eqn:H1; [done|].
    destruct (run_model_returns _ _ _ _ _ _ _ _ H1)
      as (assigned & Hassign & Hupd & _ & _).
    pose proof (update_buffer_keys assigned (prediction_buffer (self s))) as Hk.
    rewrite <- Hupd in Hk. cbn [fst] in Hk.
    destruct (IH _ _ Hrun) as [IHk IHm]. split.
    + intros l. rewrite IHk, Hk, (assign_scores_keys _ _ _ _ _ Hassign).
      cbn [fst]. split.
      * intros [[?|?]|(mdl' & e' & Hin & Hl)]; [by left| |].
        -- right. exists mdl, e. split; [left|done].
        -- right. exists mdl', e'. split; [by right|done].
      * intros [?|(mdl' & e' & Hin & Hl)]; [by left; left|].
        apply elem_of_cons in Hin as [[= -> ->]|Hin].
        -- left. by right.
        -- right. eauto.
    + intros mdl' e' Hin. apply elem_of_cons in Hin as [[= -> ->]|Hin].
      * by eapply assign_scores_mapping.
      * by eapply IHm.
Qed.

Lemma score_frame_returns_keys x timing s s1 acc :
  score_frame x timing s = (s1, inr acc) ->
  (forall l, l ∈ Dict.keys acc.1 <->
     exists mdl e, (mdl, e) ∈ registry (self s) /\ l ∈ labels_of mdl e) /\
  (forall mdl e, (mdl, e) ∈ registry (self s) ->
     model_outputs e = 1 \/ exists d, class_mapping e = MDict d).
Proof.
  unfold score_frame, bind, stamp, time, ret, get_self, put_self.
  destruct timing; cbn [self clock stdout prediction_buffer preprocessor registry];
    intros Hrun; apply run_models_returns_keys in Hrun as [Hk Hm];
    (split; [|done]); intros l; rewrite Hk; cbn; rewrite elem_of_nil; tauto.
Qed.

Lemma predict_returns_keys x patience threshold timing s s1 predictions
    timing_dict s2 result :
  score_frame x timing s = (s1, inr (predictions, timing_dict)) ->
  predict x patience threshold timing s = (s2, inr result) ->
  Dict.keys result = Dict.keys predictions.
Proof.
  intros Hscore Hret.
  destruct (predict_returns_rule _ _ _ _ _ _ _ _ _ _ Hscore Hret) as [->| ->];
    [done|].
  unfold Dict.keys. rewrite map_map. done.
Qed.

(** X5: a returning [predict] call returns one score for each label of each
    registered model and for nothing else: the name of every model with one
    output and every value of the dictionary of every other model, each
    label once. *)
Theorem predict_scores_every_label x patience threshold timing s s2 result :
  predict x patience threshold timing s = (s2, inr result) ->
  NoDup (Dict.keys result) /\
  forall l, l ∈ Dict.keys result <->
    exists mdl e, (mdl, e) ∈ registry (self s) /\ l ∈ labels_of mdl e.
Proof.
  intros Hret.
  destruct (predict_returns_scored _ _ _ _ _ _ _ Hret)
    as (s1 & predictions & timing_dict & Hscore).
  rewrite (predict_returns_keys _ _ _ _ _ _ _ _ _ _ Hscore Hret).
  split.
  - by destruct (score_frame_just_appended _ _ _ _ _ Hscore).
  - by destruct (score_frame_returns_keys _ _ _ _ _ Hscore).
Qed.

End Labels.

(** ** Parents of the labels of a frame *)

Section LabelParents.
Context `{RT : Runtime}.

(** Among the models that have a label there is a last one. *)
Lemma last_with_label (entries : odict ModelEntry) (label : string) :
  (exists mdl e, (mdl, e) ∈ entries /\ has_label e label) ->
  exists before mdl e after,
    entries = before ++ (mdl, e) :: after /\
    has_label e label /\
    forall mdl' e', (mdl', e') ∈ after -> ~ has_label e' label.
Proof.
  induction entries as [|[mdl e] rest IH]; intros (mdl0 & e0 & Hin & Hhas).
  { by apply elem_of_nil in Hin. }
  destruct (decide (Exists (fun me => has_label me.2 label) rest))
    as [Hrest|Hrest'].
  - apply Exists_exists in Hrest as ([mdl' e'] & Hin' & Hhas'). cbn in Hhas'.
    destruct IH as (before & mdl1 & e1 & after & -> & H1 & Hafter);
      [by eauto|].
    by exists ((mdl, e) :: before), mdl1, e1, after.
  - assert (~ exists mdl' e', (mdl', e') ∈ rest /\ has_label e' label)
      as Hrest.
    { intros (mdl' & e' & Hin' & Hhas'). apply Hrest'.
      apply Exists_exists. by exists (mdl', e'). }
    apply elem_of_cons in Hin as [[= -> ->]|Hin].
    + exists [], mdl, e, rest. split; [done|]. split; [done|].
      intros mdl' e' Hin' Hhas'. apply Hrest. eauto.
    + exfalso. apply Hrest. eauto.
Qed.

(** X6: when every model with one output is labelled by its own name, each
    label that a returning [predict] call scores has a parent model that is
    registered and has the label: [get_parent_model_from_label] finds a
    model for every score returned. *)
Theorem scored_labels_have_registered_parent x patience threshold timing s
    s2 result l :
  one_output_named (registry (self s)) ->
  predict x patience threshold timing s = (s2, inr result) ->
  l ∈ Dict.keys result ->
  exists e,
    (get_parent_model_from_label (self s) l, e) ∈ registry (self s) /\
    has_label e l.
Proof.
  intros Hnamed Hret Hl.
  destruct (predict_returns_scored _ _ _ _ _ _ _ Hret)
    as (s1 & predictions & timing_dict & Hscore).
  rewrite (predict_returns_keys _ _ _ _ _ _ _ _ _ _ Hscore Hret) in Hl.
  destruct (score_frame_returns_keys _ _ _ _ _ Hscore) as [Hkeys Hmapping].
  apply Hkeys in Hl as (mdl0 & e0 & Hin0 & Hl0).
  assert (has_label e0 l) as Hhas0.
  { unfold labels_of in Hl0. unfold has_label.
    destruct (Z.eqb_spec (model_outputs e0) 1) as [Hone|Hmany].
    - apply list_elem_of_singleton in Hl0 as ->.
      by rewrite (Hnamed _ _ Hin0 Hone).
    - destruct (class_mapping e0); [by apply elem_of_nil in Hl0|done]. }
  destruct (last_with_label (registry (self s)) l)
    as (before & mdl & e & after & Hreg & Hhas & Hafter); [by eauto|].
  assert ((mdl, e) ∈ registry (self s)) as Hin
    by (rewrite Hreg; apply elem_of_app; right; left).
  exists e. split; [|done].
  unfold get_parent_model_from_label.
  rewrite Hreg at 1. rewrite parent_loop_last by done.
  destruct (class_mapping e) as [name|d] eqn:Hcm; [|done].
  destruct (Hmapping _ _ Hin) as [Hone|[d Hd]]; [|congruence].
  rewrite (Hnamed _ _ Hin Hone) in Hcm. by injection Hcm as <-.
Qed.

End LabelParents.

(** ** One model *)

Section OneModel.
Context `{RT : Runtime}.

(** With distinct labels the buffer update rewrites each score from the
    buffer as it was before the update. *)
Lemma update_buffer_scores predictions (buf : gmap string (list pyfloat)) :
  NoDup (Dict.keys predictions) ->
  (update_buffer predictions buf).1
  = map (fun lv => (lv.1, (append_score (default [] (buf !! lv.1)) lv.2).1))
      predictions.
Proof.
  revert buf. induction predictions as [|[l v] rest IH]; intros buf Hnd; [done|].
  cbn [Dict.keys map fst] in Hnd. apply NoDup_cons in Hnd as [Hl Hnd].
  cbn [update_buffer map fst snd].
  destruct (append_score (default [] (buf !! l)) v) as [v' d'] eqn:Hs.
  specialize (IH (<[l:=d']> buf) Hnd).
  destruct (update_buffer rest _) as [rest' buf']. cbn [fst snd] in *.
  f_equal. rewrite IH. apply map_ext_in. intros [l0 v0] Hin. cbn [fst snd].
  assert (l <> l0) as Hne.
  { intros ->. apply Hl. apply list_elem_of_fmap. exists (l0, v0).
    split; [done|]. by apply list_elem_of_In. }
  by rewrite lookup_insert_ne.
Qed.

(** X7: with one model registered, a returning [predict] call without
    patience returns, for each label the model scores, 0.0 when the label's
    buffer held fewer than five entries before the call and the score of the
    model otherwise; it appends that value once to the buffer of the label
    and leaves every other buffer as it was. *)
Theorem single_model_predict x threshold timing s mdl e s2 result :
  registry (self s) = [(mdl, e)] ->
  predict x ∅ threshold timing s = (s2, inr result) ->
  exists raw,
    assign_scores mdl e
      (session_run (models e) (model_input_names e) (features_for (self s) x e))
      [] = inr raw /\
    result
    = map (fun lv =>
             (lv.1, if (length (buffer (self s) lv.1) <? 5)%nat
                    then fzero else lv.2)) raw /\
    (forall l v, (l, v) ∈ raw ->
       buffer (self s2) l
       = deque_append (buffer (self s) l)
           (if (length (buffer (self s) l) <? 5)%nat then fzero else v)) /\
    (forall l, l ∉ Dict.keys raw -> buffer (self s2) l = buffer (self s) l).
Proof.
  intros Hreg Hret.
  destruct (predict_returns_scored _ _ _ _ _ _ _ Hret)
    as (s1 & predictions & timing_dict & Hscore).
  pose proof (predict_without_patience x threshold timing s _ _ _ Hscore) as Hres.
  rewrite Hret in Hres. cbn [snd] in Hres. injection Hres as ->.
  assert (self s2 = self s1) as ->.
  { pose proof (predict_self x ∅ threshold timing s) as H.
    by rewrite Hret, Hscore in H. }
  clear Hret. revert Hscore.
  unfold score_frame, bind, stamp, time, ret, get_self, put_self.
  destruct timing; cbn [self clock stdout prediction_buffer preprocessor registry].
  all: rewrite Hreg; cbn [run_models]; unfold bind at 1.
  all: destruct (run_model _ mdl e _ _) as [s' [err|acc']] eqn:Hrun; [done|].
  all: apply run_model_returns in Hrun as (raw & Hraw & Hupd & _ & _).
  all: cbn [self prediction_buffer preprocessor] in Hraw, Hupd.
  all: unfold ret; intros [= -> ->]; cbn [fst] in Hupd.
  all: exists raw; split; [exact Hraw|].
  all: pose proof (assign_scores_NoDup _ _ _ _ _
                     (NoDup_nil_2 : NoDup (Dict.keys [])) Hraw) as Hnd.
  all: pose proof (update_buffer_scores raw (prediction_buffer (self s)) Hnd)
         as Hscores.
  all: pose proof (fun l v => update_buffer_lookup raw
                                (prediction_buffer (self s)) l v Hnd) as Hlookup.
  all: pose proof (fun l => update_buffer_other raw
                              (prediction_buffer (self s)) l) as Hother.
  all: rewrite <- Hupd in Hscores, Hlookup, Hother; cbn [fst snd] in *.
  all: unfold buffer.
  all: split; [exact Hscores|].
  all: split; [|by intros l Hl; rewrite Hother].
  all: intros l v Hin; destruct (Hlookup l v Hin) as [_ ->]; done.
Qed.

End OneModel.

Section LabelsExamples.
Import Demo.
#[local] Set Warnings "-inexact-float".

(** One binary and one three-class model: four labels, each scored once. *)
Lemma predict_scores_every_label_witness :
  NoDup ["hey"; "minute"; "hour"; "second"] /\
  forall l, l ∈ ["hey"; "minute"; "hour"; "second"] <->
    exists mdl e,
      (mdl, e) ∈ registry (self (start hey_timer)) /\ l ∈ labels_of mdl e.
Proof.
  apply (@predict_scores_every_label runtime [7] ∅ ∅ false (start hey_timer)
           (@predict runtime [7] ∅ ∅ false (start hey_timer)).1
           [("hey", 0%float); ("minute", 0%float); ("hour", 0%float);
            ("second", 0%float)]).
  evaluate.
Defined.

Lemma hey_timer_one_output_named :
  @one_output_named runtime (registry (self (start hey_timer))).
Proof.
  intros mdl e Hin Hone.
  change (registry (self (start hey_timer)))
    with [("hey", hey_entry); ("timer", timer_entry)] in Hin.
  apply elem_of_cons in Hin as [Heq|Hin].
  { by injection Heq as -> ->. }
  apply list_elem_of_singleton in Hin. injection Hin as -> ->. discriminate.
Defined.

(** The label "hour" is traced to "timer". *)
Lemma scored_labels_have_registered_parent_witness :
  exists e,
    (get_parent_model_from_label (self (start hey_timer)) "hour", e)
      ∈ registry (self (start hey_timer)) /\
    has_label e "hour".
Proof.
  apply (@scored_labels_have_registered_parent runtime [7] ∅ ∅ false
           (start hey_timer)
           (@predict runtime [7] ∅ ∅ false (start hey_timer)).1
           [("hey", 0%float); ("minute", 0%float); ("hour", 0%float);
            ("second", 0%float)] "hour").
  - apply hey_timer_one_output_named.
  - evaluate.
  - right. right. left.
Defined.

(** The warm model "hey" on a frame scored 0.7: the score is returned and
    buffered. *)
Lemma single_model_predict_witness :
  exists raw,
    @assign_scores runtime "hey" hey_entry
      (session_run (models hey_entry) (model_input_names hey_entry)
         (features_for (self (start hey_warm)) [7] hey_entry)) []
    = inr raw /\
    [("hey", 0.7%float)]
    = map (fun lv =>
             (lv.1, if (length (buffer (self (start hey_warm)) lv.1) <? 5)%nat
                    then fzero else lv.2)) raw.
Proof.
  destruct (@single_model_predict runtime [7] ∅ false (start hey_warm)
              "hey" hey_entry
              (@predict runtime [7] ∅ ∅ false (start hey_warm)).1
              [("hey", 0.7%float)])
    as (raw & Hraw & Hres & _).
  - evaluate.
  - evaluate.
  - by exists raw.
Defined.

End LabelsExamples.

(** ** Names that [strip] leaves alone *)

Section CleanNames.
Implicit Types (chars s p : list ascii) (c : ascii).

Lemma rstrip_suffix chars s : exists p, s = Py.rstrip chars s ++ p /\
  forallb (Py.in_chars chars) p = true.
Proof.
  unfold Py.rstrip.
  assert (forall r, exists q, r = q ++ Py.lstrip chars r /\
                              forallb (Py.in_chars chars) q = true) as Hl.
  { induction r as [|c r (q & Hq & Hall)]; [by exists []|]. cbn [Py.lstrip].
    destruct (Py.in_chars chars c) eqn:Hc.
    - exists (c :: q). cbn. rewrite Hc, Hall. split; [by f_equal|done].
    - by exists []. }
  destruct (Hl (List.rev s)) as (q & Hq & Hall).
  exists (List.rev q). split.
  - rewrite <- rev_app_distr, <- Hq. by rewrite rev_involutive.
  - rewrite forallb_forall in *. intros c Hc. apply Hall. by apply in_rev.
Qed.

Lemma lstrip_prefix chars s : exists p, s = p ++ Py.lstrip chars s /\
  forallb (Py.in_chars chars) p = true.
Proof.
  induction s as [|c s (q & Hq & Hall)]; [by exists []|]. cbn [Py.lstrip].
  destruct (Py.in_chars chars c) eqn:Hc.
  - exists (c :: q). cbn. rewrite Hc, Hall. split; [by f_equal|done].
  - by exists [].
Qed.

Lemma lstrip_head chars s c s' :
  Py.lstrip chars s = c :: s' -> Py.in_chars chars c = false.
Proof.
  induction s as [|c0 s IH]; [done|]. cbn [Py.lstrip].
  destruct (Py.in_chars chars c0) eqn:Hc0; [done|]. by intros [= <- _].
Qed.

Lemma lstrip_clean chars c s :
  Py.in_chars chars c = false -> Py.lstrip chars (c :: s) = c :: s.
Proof. intros Hc. cbn. by rewrite Hc. Qed.

Lemma rstrip_clean chars c s :
  Py.in_chars chars c = false -> Py.rstrip chars (s ++ [c]) = s ++ [c].
Proof.
  intros Hc. unfold Py.rstrip. rewrite rev_app_distr. cbn [List.rev app].
  rewrite lstrip_clean by done.
  change (c :: List.rev s) with ([c] ++ List.rev s).
  by rewrite rev_app_distr, rev_involutive.
Qed.

Lemma rstrip_last chars s c s' :
  Py.rstrip chars s = s' ++ [c] -> Py.in_chars chars c = false.
Proof.
  unfold Py.rstrip. intros H.
  apply (f_equal (@List.rev ascii)) in H.
  rewrite rev_involutive, rev_app_distr in H. cbn in H.
  by eapply lstrip_head.
Qed.

(** What [strip] returns neither begins nor ends with a character of the
    set, and stripping it again changes nothing. *)
Lemma strip_ends chars s :
  (forall c s', Py.strip chars s = c :: s' -> Py.in_chars chars c = false) /\
  (forall c s', Py.strip chars s = s' ++ [c] -> Py.in_chars chars c = false).
Proof.
  unfold Py.strip. split.
  - intros c s' H.
    destruct (rstrip_suffix chars (Py.lstrip chars s)) as (p & Hp & _).
    rewrite H in Hp. by eapply lstrip_head.
  - intros c s'. apply rstrip_last.
Qed.

Lemma strip_clean chars s :
  (forall c s', s = c :: s' -> Py.in_chars chars c = false) ->
  (forall c s', s = s' ++ [c] -> Py.in_chars chars c = false) ->
  Py.strip chars s = s.
Proof.
  intros Hhead Hlast. unfold Py.strip.
  destruct s as [|c s]; [done|].
  rewrite lstrip_clean by (by eapply Hhead).
  destruct (exists_last (l := c :: s)) as (s' & c' & Heq); [done|].
  rewrite Heq. apply rstrip_clean. by eapply Hlast.
Qed.

Lemma string_of_list_ascii_app (a b : list ascii) :
  string_of_list_ascii (a ++ b)
  = String.append (string_of_list_ascii a) (string_of_list_ascii b).
Proof.
  induction a as [|c a IH]; [done|].
  change (String c (string_of_list_ascii (a ++ b))
          = String c (String.append (string_of_list_ascii a)
                        (string_of_list_ascii b))).
  by f_equal.
Qed.

(** The fields of a split hold no separator. *)
Lemma split_no_sep (sep : ascii) (s : list ascii) :
  Forall (fun field => sep ∉ field) (Py.split sep s).
Proof.
  induction s as [|c s IH]; cbn [Py.split].
  - constructor; [|constructor]. apply not_elem_of_nil.
  - destruct (Ascii.eqb_spec c sep) as [->|Hne].
    + constructor; [apply not_elem_of_nil|done].
    + destruct (Py.split sep s) as [|h t].
      * constructor; [|constructor]. intros Hin.
        apply list_elem_of_singleton in Hin. congruence.
      * apply Forall_cons in IH as [Hh Ht]. constructor; [|done].
        intros Hin. apply elem_of_cons in Hin as [?|?]; [congruence|done].
Qed.

Lemma last_field_no_sep (sep : ascii) (s : list ascii) :
  sep ∉ Py.last_field (Py.split sep s).
Proof.
  pose proof (split_no_sep sep s) as Hall. unfold Py.last_field.
  destruct (Py.split sep s) as [|h t] eqn:Hs.
  { destruct s; cbn in Hs; [done|].
    destruct (Ascii.eqb _ _); [done|]. by destruct (Py.split sep s). }
  rewrite Forall_forall in Hall. apply Hall.
  destruct (exists_last (l := h :: t)) as (l' & x & ->); [done|].
  rewrite last_last. apply elem_of_app. right. left.
Qed.

End CleanNames.

Section NameShape.

(** Beginning or ending with a character of the set, on the characters of
    the string. *)
Lemma begins_or_ends_with_chars (chars : list ascii) (stem : string) :
  begins_or_ends_with chars stem <->
  exists c rest,
    Py.in_chars chars c = true /\
    (list_ascii_of_string stem = c :: rest \/
     list_ascii_of_string stem = rest ++ [c]).
Proof.
  unfold begins_or_ends_with. split.
  - intros (c & rest & Hc & [->| ->]).
    + exists c, (list_ascii_of_string rest). split; [done|]. by left.
    + exists c, (list_ascii_of_string rest). split; [done|]. right.
      by rewrite list_ascii_of_string_app.
  - intros (c & rest & Hc & [H|H]);
      apply (f_equal string_of_list_ascii) in H;
      rewrite string_of_list_ascii_of_string in H.
    + exists c, (string_of_list_ascii rest). split; [done|]. by left.
    + exists c, (string_of_list_ascii rest). split; [done|]. right.
      by rewrite H, string_of_list_ascii_app.
Qed.

Lemma strip_not_begins_or_ends (chars s : list ascii) :
  ~ begins_or_ends_with chars (string_of_list_ascii (Py.strip chars s)).
Proof.
  rewrite begins_or_ends_with_chars, list_ascii_of_string_of_list_ascii.
  destruct (strip_ends chars s) as [Hhead Hlast].
  intros (c & rest & Hc & [H|H]).
  - apply Hhead in H. congruence.
  - apply Hlast in H. congruence.
Qed.

(** X8: for a path whose final component is [stem ++ ".onnx"] with a stem
    that neither begins nor ends with '.', 'o', 'n' or 'x', the name
    registered is the stem. *)
Theorem mdl_name_of_clean_stem mdl_path stem :
  basename mdl_path = String.append stem ".onnx" ->
  ~ begins_or_ends_with onnx_chars stem ->
  mdl_name_of mdl_path = stem.
Proof.
  intros Hbase Hclean. rewrite (mdl_name_of_stem _ _ Hbase).
  rewrite strip_clean; [apply string_of_list_ascii_of_string| |].
  - intros c s' Heq. destruct (Py.in_chars onnx_chars c) eqn:Hc; [|done].
    exfalso. apply Hclean, begins_or_ends_with_chars. exists c, s'. auto.
  - intros c s' Heq. destruct (Py.in_chars onnx_chars c) eqn:Hc; [|done].
    exfalso. apply Hclean, begins_or_ends_with_chars. exists c, s'. auto.
Qed.

(** X9: whatever the path, the name registered holds no path separator,
    neither begins nor ends with '.', 'o', 'n' or 'x', and is the final
    component of the path less a prefix and a suffix made of these
    characters only. *)
Theorem mdl_name_of_shape mdl_path :
  (os_path_sep ∉ list_ascii_of_string (mdl_name_of mdl_path)) /\
  ~ begins_or_ends_with onnx_chars (mdl_name_of mdl_path) /\
  exists pre post,
    list_ascii_of_string (basename mdl_path)
    = pre ++ list_ascii_of_string (mdl_name_of mdl_path) ++ post /\
    forallb (Py.in_chars onnx_chars) pre = true /\
    forallb (Py.in_chars onnx_chars) post = true.
Proof.
  rewrite mdl_name_of_basename.
  set (field := list_ascii_of_string (basename mdl_path)).
  rewrite list_ascii_of_string_of_list_ascii.
  destruct (lstrip_prefix onnx_chars field) as (pre & Hpre & Hallpre).
  destruct (rstrip_suffix onnx_chars (Py.lstrip onnx_chars field))
    as (post & Hpost & Hallpost).
  assert (field = pre ++ Py.strip onnx_chars field ++ post) as Hfield.
  { unfold Py.strip. by rewrite <- Hpost. }
  split; [|split].
  - intros Hin.
    assert (os_path_sep ∈ field) as Hsep.
    { rewrite Hfield. apply elem_of_app. right. apply elem_of_app. by left. }
    revert Hsep. unfold field, basename.
    rewrite list_ascii_of_string_of_list_ascii. apply last_field_no_sep.
  - apply strip_not_begins_or_ends.
  - by exists pre, post.
Qed.

End NameShape.

Section NameShapeExamples.

(** "models/hey.onnx" is registered as "hey". *)
Lemma mdl_name_of_clean_stem_witness : mdl_name_of "models/hey.onnx" = "hey".
Proof.
  apply (mdl_name_of_clean_stem "models/hey.onnx" "hey"); [reflexivity|].
  rewrite begins_or_ends_with_chars. intros (c & rest & Hc & [H|H]).
  - injection H as <- _. discriminate.
  - apply (app_inj_tail ["h"; "e"]%char rest "y"%char c) in H as [_ <-].
    discriminate.
Defined.

End NameShapeExamples.

(** ** Clips of any length *)

Section ClipCount.
Context `{RT : Runtime}.

Lemma range_empty (start stop step : Z) :
  stop <= start -> Py.range start stop step = [].
Proof.
  intros H. unfold Py.range.
  destruct (Z.to_nat (stop - start)) as [|n] eqn:Hn; [done|lia].
Qed.

(** The frames [predict_clip] cuts from data of any length. *)
Lemma clip_frames_any (data : list Z) :
  map (fun i => Py.slice data i (i + step_size))
    (Py.range 0 (Z.of_nat (length data) - step_size) step_size)
  = frames data (Z.to_nat ((Z.of_nat (length data) - 1) / step_size)).
Proof.
  destruct (decide (length data = 0)%nat) as [Hz|Hnz].
  - rewrite Hz, range_empty by (unfold step_size; lia). done.
  - apply clip_frames.
    assert (0 <= (Z.of_nat (length data) - 1) / step_size) as Hq
      by (apply Z.div_pos; unfold step_size; lia).
    rewrite Z2Nat.id by done.
    pose proof (Z.div_mod (Z.of_nat (length data) - 1) step_size
                  ltac:(by unfold step_size)) as Hdm.
    pose proof (Z.mod_pos_bound (Z.of_nat (length data) - 1) step_size
                  ltac:(by unfold step_size)) as Hm.
    unfold step_size in *. lia.
Qed.

(** The data that [predict_clip] scores: the clip between two runs of
    [16000 * padding] zeros. *)
Lemma pad_silence samples padding :
  0 <= padding ->
  pad samples padding
  = inr (replicate (Z.to_nat (16000 * padding)) 0 ++ samples
         ++ replicate (Z.to_nat (16000 * padding)) 0).
Proof.
  intros Hp. unfold pad. destruct (Z.eqb_spec padding 0) as [->|Hnz].
  - cbn. by rewrite app_nil_r.
  - by assert ((padding <? 0) = false) as -> by (apply Z.ltb_ge; lia).
Qed.

(** X10: with a padding of [padding >= 0] seconds the data scored is the
    clip between two runs of [16000 * padding] zero samples, and
    [predict_clip] is [predict] called in order on its first
    [(len(data) - 1) // 1280] frames of 1280 consecutive samples: a returned
    list has that many mappings. *)
Theorem predict_clip_frame_count samples padding patience threshold timing s :
  0 <= padding ->
  let silence := replicate (Z.to_nat (16000 * padding)) 0 in
  let data := silence ++ samples ++ silence in
  let n := Z.to_nat ((Z.of_nat (length data) - 1) / 1280) in
  Z.of_nat (length data) = Z.of_nat (length samples) + 32000 * padding /\
  predict_clip samples padding patience threshold timing s
  = predict_each (frames data n) patience threshold timing s /\
  forall s' results,
    predict_clip samples padding patience threshold timing s
    = (s', inr results) ->
    length results = n.
Proof.
  intros Hp. cbn zeta.
  pose proof (pad_silence samples padding Hp) as Hpad.
  set (data := replicate (Z.to_nat (16000 * padding)) 0 ++ samples
               ++ replicate (Z.to_nat (16000 * padding)) 0) in *.
  split.
  { unfold data. rewrite !length_app, !length_replicate. lia. }
  assert (predict_clip samples padding patience threshold timing s
          = predict_each
              (frames data (Z.to_nat ((Z.of_nat (length data) - 1) / 1280)))
              patience threshold timing s) as Heq.
  { unfold predict_clip. rewrite Hpad. unfold bind at 1, lift.
    rewrite predict_frames_each, clip_frames_any.
    change step_size with 1280.
    by destruct (predict_each _ _ _ _ s) as [s' [e|ps]]. }
  split; [done|]. rewrite Heq. intros s' results Hres.
  apply predict_each_length in Hres. by rewrite Hres, length_frames.
Qed.

(** X11: a clip of at most 1280 samples read without padding is passed to
    no [predict] call: [predict_clip] returns the empty list and leaves the
    instance, the clock and the output as they were, whatever the options,
    also options on which [predict] raises. *)
Theorem predict_clip_short_clip samples patience threshold timing s :
  (length samples <= 1280)%nat ->
  predict_clip samples 0 patience threshold timing s = (s, inr []).
Proof.
  intros Hlen. unfold predict_clip, pad. cbn [Z.eqb lift].
  unfold bind at 1, lift.
  rewrite range_empty by (unfold step_size; lia). done.
Qed.

Lemma predict_each_app fs gs patience threshold timing s :
  predict_each (fs ++ gs) patience threshold timing s
  = (ra <- predict_each fs patience threshold timing ;;
     rb <- predict_each gs patience threshold timing ;;
     ret (ra ++ rb)) s.
Proof.
  revert s. induction fs as [|x rest IH]; intros s.
  - cbn [app predict_each]. unfold bind, ret.
    by destruct (predict_each gs _ _ _ s) as [s' [e|ps]].
  - cbn [app predict_each]. unfold bind.
    destruct (predict x _ _ _ s) as [s1 [e|p]]; [done|].
    rewrite IH. unfold bind, ret.
    destruct (predict_each rest _ _ _ s1) as [s2 [e|ra]]; [done|].
    by destruct (predict_each gs _ _ _ s2) as [s3 [e|rb]].
Qed.

Lemma frames_app (a b : list Z) (n m : nat) :
  length a = (n * Z.to_nat step_size)%nat ->
  frames (a ++ b) (n + m) = frames a n ++ frames b m.
Proof.
  intros Ha. unfold frames. rewrite seq_app, map_app. f_equal.
  - apply map_ext_in. intros i Hi. apply in_seq in Hi. unfold frame.
    rewrite drop_app_le by nia.
    rewrite take_app_le; [done|]. rewrite length_drop. nia.
  - cbn [Nat.add].
    assert (seq n m = map (Nat.add n) (seq 0 m)) as ->.
    { symmetry. etrans; [apply (fmap_add_seq n 0 m)|]. by rewrite Nat.add_0_r. }
    rewrite map_map. apply map_ext. intros i. unfold frame.
    rewrite drop_app_ge by nia. do 2 f_equal. nia.
Qed.

(** X12: a clip read without padding that goes on after [n] whole frames
    [a] with at least one sample more: the frames of [a] are scored in
    order, and the rest [b] is then scored as [predict_clip] scores it on
    the instance as the frames of [a] have left it; nothing is reset in
    between, and the results follow one another. *)
Theorem predict_clip_continues_stream (a b : list Z) (n : nat)
    patience threshold timing s :
  length a = (n * 1280)%nat -> (1 <= length b)%nat ->
  predict_clip (a ++ b) 0 patience threshold timing s
  = (ra <- predict_each (frames a n) patience threshold timing ;;
     rb <- predict_clip b 0 patience threshold timing ;;
     ret (ra ++ rb)) s.
Proof.
  intros Ha Hb.
  assert (forall c s0,
    predict_clip c 0 patience threshold timing s0
    = predict_each
        (frames c (Z.to_nat ((Z.of_nat (length c) - 1) / step_size)))
        patience threshold timing s0) as Hclip.
  { intros c s0. unfold predict_clip, pad. cbn [Z.eqb lift].
    unfold bind at 1, lift. rewrite predict_frames_each, clip_frames_any.
    by destruct (predict_each _ _ _ _ s0) as [s' [e|ps]]. }
  rewrite Hclip.
  replace (Z.to_nat ((Z.of_nat (length (a ++ b)) - 1) / step_size))
    with (n + Z.to_nat ((Z.of_nat (length b) - 1) / step_size))%nat.
  - rewrite frames_app by (by change (Z.to_nat step_size) with 1280%nat).
    rewrite predict_each_app. unfold bind.
    destruct (predict_each (frames a n) _ _ _ s) as [s1 [e|ra]]; [done|].
    by rewrite Hclip.
  - rewrite length_app, Ha. unfold step_size.
    replace (Z.of_nat (n * 1280 + length b) - 1)
      with ((Z.of_nat (length b) - 1) + Z.of_nat n * 1280) by lia.
    rewrite Z.div_add by lia.
    assert (0 <= (Z.of_nat (length b) - 1) / 1280)
      by (apply Z.div_pos; lia).
    lia.
Qed.

End ClipCount.

Section ClipInvariants.
Context `{RT : Runtime}.

Lemma predict_each_kept J fs patience threshold timing :
  kept J ->
  triple (fun s => J (self s)) (predict_each fs patience threshold timing)
         (fun _ s => J (self s)) (fun _ s => J (self s)).
Proof.
  intros HJ. induction fs as [|x rest IH]; cbn [predict_each].
  - by apply triple_ret.
  - eapply (triple_bind _ _ _ (fun _ s => J (self s)));
      [by apply predict_kept|intros p].
    eapply (triple_bind _ _ _ (fun _ s => J (self s))); [exact IH|intros ps].
    by apply triple_ret.
Qed.

Lemma predict_clip_kept J samples padding patience threshold timing :
  kept J ->
  triple (fun s => J (self s))
         (predict_clip samples padding patience threshold timing)
         (fun _ s => J (self s)) (fun _ s => J (self s)).
Proof.
  intros HJ s Hs. unfold predict_clip, bind at 1, lift.
  destruct (pad samples padding) as [e|data]; [done|].
  rewrite predict_frames_each.
  pose proof (predict_each_kept J
                (map (fun i => Py.slice data i (i + step_size))
                   (Py.range 0 (Z.of_nat (length data) - step_size) step_size))
                patience threshold timing HJ s Hs) as H.
  by destruct (predict_each _ _ _ _ s) as [s' [e|ps]].
Qed.

Lemma kept_buffers (P : list pyfloat -> Prop) :
  (forall d v, P d -> P (append_score d v).2) ->
  kept (fun m => forall l, P (buffer m l)).
Proof.
  intros HP m Hm. split; [done|]. intros predictions.
  apply (update_buffer_all P); [done|]. apply Hm.
Qed.

(** X13: whatever the clip and the options, and whether it returns or
    raises midway, [predict_clip] leaves the registry as it was, leaves
    every buffer within 30 entries if every buffer was, and leaves zeros in
    the first five places of every buffer from which nothing has left yet
    if that held before. *)
Theorem predict_clip_keeps_registry_and_buffers
    samples padding patience threshold timing s :
  let s' := (predict_clip samples padding patience threshold timing s).1 in
  registry (self s') = registry (self s) /\
  ((forall l, (length (buffer (self s) l) <= maxlen)%nat) ->
   forall l, (length (buffer (self s') l) <= maxlen)%nat) /\
  ((forall l, cold_start_ok (buffer (self s) l)) ->
   forall l, cold_start_ok (buffer (self s') l)).
Proof.
  cbn zeta. split; [|split].
  - pose proof (predict_clip_kept (fun m => registry m = registry (self s))
                  samples padding patience threshold timing
                  ltac:(by intros m Hm) s eq_refl) as H.
    by destruct (predict_clip _ _ _ _ _ s) as [s' [e|p]].
  - intros Hs.
    pose proof (predict_clip_kept _ samples padding patience threshold timing
                  (kept_buffers (fun d => (length d <= maxlen)%nat)
                     append_score_bounded) s Hs) as H.
    by destruct (predict_clip _ _ _ _ _ s) as [s' [e|p]].
  - intros Hs.
    pose proof (predict_clip_kept _ samples padding patience threshold timing
                  (kept_buffers cold_start_ok append_score_cold_start_ok)
                  s Hs) as H.
    by destruct (predict_clip _ _ _ _ _ s) as [s' [e|p]].
Qed.

End ClipInvariants.

(** ** The first frames of an instance *)

Section ColdStart.
Context `{RT : Runtime}.

(** While every buffer holds at most [j < 5] entries, a buffer update
    returns zeros only and leaves at most [j + 1] entries. *)
Lemma update_buffer_cold predictions (buf : gmap string (list pyfloat)) (j : nat) :
  (j < 5)%nat -> NoDup (Dict.keys predictions) ->
  (forall l, (length (default [] (buf !! l)) <= j)%nat) ->
  Forall (fun lv => lv.2 = fzero) (update_buffer predictions buf).1 /\
  forall l,
    (length (default [] ((update_buffer predictions buf).2 !! l)) <= S j)%nat.
Proof.
  intros Hj Hnd Hbuf. split.
  - rewrite update_buffer_scores by done.
    apply Forall_fmap, Forall_forall. intros [l v] _. unfold compose.
    cbn [fst snd].
    rewrite append_score_cold; [done|]. specialize (Hbuf l). lia.
  - intros l. destruct (decide (l ∈ Dict.keys predictions)) as [Hin|Hout].
    + apply list_elem_of_fmap in Hin as ([l0 v] & -> & Hin). cbn [fst].
      destruct (update_buffer_lookup predictions buf l0 v Hnd Hin) as [_ ->].
      cbn [default from_option id]. rewrite append_score_length.
      specialize (Hbuf l0). lia.
    + rewrite update_buffer_other by done. specialize (Hbuf l). lia.
Qed.

Lemma run_models_cold timing entries acc s s' acc' (j : nat) :
  (j + length entries <= 5)%nat ->
  NoDup (Dict.keys acc.1) -> Forall (fun lv => lv.2 = fzero) acc.1 ->
  (forall l, (length (buffer (self s) l) <= j)%nat) ->
  run_models timing entries acc s = (s', inr acc') ->
  Forall (fun lv => lv.2 = fzero) acc'.1.
Proof.
  revert j acc s. induction entries as [|[mdl e] rest IH];
    intros j acc s Hj Hnd Hzero Hbuf Hrun; cbn [run_models] in Hrun.
  - by injection Hrun as <- <-.
  - unfold bind in Hrun. destruct acc as [predictions timing_dict].
    destruct (run_model timing mdl e _ s) as [s1 [err|acc1]] eqn:H1; [done|].
    destruct (run_model_returns _ _ _ _ _ _ _ _ H1)
      as (assigned & Hassign & Hupd & _ & _).
    pose proof (assign_scores_NoDup _ _ _ _ _ Hnd Hassign) as Hnd1.
    cbn [length] in Hj.
    destruct (update_buffer_cold assigned (prediction_buffer (self s)) j
                ltac:(lia) Hnd1 Hbuf) as [Hz1 Hb1].
    pose proof (update_buffer_keys assigned (prediction_buffer (self s))) as Hk.
    rewrite <- Hupd in Hz1, Hb1, Hk. cbn [fst snd] in Hz1, Hb1, Hk.
    apply (IH (S j) acc1 s1); [lia| |done|exact Hb1|done].
    by rewrite Hk.
Qed.

(** X14: when the number of entries of every buffer plus the number of
    registered models is at most five -- after creation or [reset] with at
    most five models, say -- every score that a returning [predict] call
    returns is 0.0, whatever the models compute and whatever the options. *)
Theorem cold_start_returns_zero x patience threshold timing s s2 result :
  (forall l,
     (length (buffer (self s) l) + length (registry (self s)) <= 5)%nat) ->
  predict x patience threshold timing s = (s2, inr result) ->
  forall l v, (l, v) ∈ result -> v = fzero.
Proof.
  intros Hcold Hret.
  destruct (predict_returns_scored _ _ _ _ _ _ _ Hret)
    as (s1 & predictions & timing_dict & Hscore).
  assert (Forall (fun lv => lv.2 = fzero) predictions) as Hzero.
  { revert Hscore.
    unfold score_frame, bind, stamp, time, ret, get_self, put_self.
    destruct timing;
      cbn [self clock stdout prediction_buffer preprocessor registry];
      intros Hrun.
    all: eapply (run_models_cold _ _ _ _ _ _
                   (5 - length (registry (self s)))) in Hrun; [exact Hrun|..].
    all: try (cbn; by constructor).
    all: try (intros l; specialize (Hcold l); unfold buffer in *;
              cbn [self prediction_buffer]; lia).
    all: specialize (Hcold ""); lia. }
  rewrite Forall_forall in Hzero.
  destruct (predict_returns_rule _ _ _ _ _ _ _ _ _ _ Hscore Hret) as [->| ->].
  - intros l v Hin. exact (Hzero _ Hin).
  - intros l v Hin. apply list_elem_of_fmap in Hin as ([l0 v0] & [= -> ->] & Hin).
    cbn [fst snd].
    destruct (debounce_rule_cases (self s1) patience threshold l0 v0)
      as [->| ->]; [|done].
    exact (Hzero _ Hin).
Qed.

End ColdStart.

Section ClipCountExamples.
Import Demo.
#[local] Set Warnings "-inexact-float".

(** 3000 samples with one second of padding are 35000 samples, 16000 zeros
    on either side: 27 frames are scored. *)
Lemma predict_clip_frame_count_witness :
  Z.of_nat
    (length (replicate (Z.to_nat 16000) 0 ++ replicate 3000 9
             ++ replicate (Z.to_nat 16000) 0))
  = 35000 /\
  @predict_clip runtime (replicate 3000 9) 1 ∅ ∅ false (start hey_warm)
  = predict_each
      (frames (replicate (Z.to_nat 16000) 0 ++ replicate 3000 9
               ++ replicate (Z.to_nat 16000) 0) 27)
      ∅ ∅ false (start hey_warm) /\
  forall s' results,
    @predict_clip runtime (replicate 3000 9) 1 ∅ ∅ false (start hey_warm)
    = (s', inr results) ->
    length results = 27%nat.
Proof.
  pose proof (@predict_clip_frame_count runtime (replicate 3000 9) 1 ∅ ∅ false
                (start hey_warm) ltac:(lia)) as H.
  cbn zeta in H.
  change (Z.to_nat (16000 * 1)) with (Z.to_nat 16000) in H.
  assert (Z.to_nat
            ((Z.of_nat
                (length (replicate (Z.to_nat 16000) 0 ++ replicate 3000 9
                         ++ replicate (Z.to_nat 16000) 0)) - 1) / 1280)
          = 27%nat) as Hn by evaluate.
  rewrite Hn in H. destruct H as (Hlen & Heq & Hres).
  split; [|by split]. etrans; [exact Hlen|]. evaluate.
Defined.

(** One frame exactly, with a patience and no threshold: nothing is scored
    and nothing is raised. *)
Lemma predict_clip_short_clip_witness :
  @predict_clip runtime (replicate 1280 9) 0 {[ "hey" := 3 ]} ∅ false
    (start hey_warm)
  = (start hey_warm, inr []).
Proof.
  apply (@predict_clip_short_clip runtime (replicate 1280 9) {[ "hey" := 3 ]}
           ∅ false (start hey_warm)).
  rewrite length_replicate. lia.
Defined.

(** One frame of nines followed by 1300 sevens. *)
Lemma predict_clip_continues_stream_witness :
  @predict_clip runtime (replicate 1280 9 ++ replicate 1300 7) 0 ∅ ∅ false
    (start hey_warm)
  = (ra <- predict_each (frames (replicate 1280 9) 1) ∅ ∅ false ;;
     rb <- predict_clip (replicate 1300 7) 0 ∅ ∅ false ;;
     ret (ra ++ rb)) (start hey_warm).
Proof.
  apply (@predict_clip_continues_stream runtime (replicate 1280 9)
           (replicate 1300 7) 1 ∅ ∅ false (start hey_warm));
    rewrite length_replicate; lia.
Defined.

(** Two models and empty buffers: the frame scored 0.7 by "hey" is returned
    as zeros. *)
Lemma cold_start_returns_zero_witness :
  (@predict runtime [7] ∅ ∅ false (start hey_timer)).2
  = inr [("hey", 0%float); ("minute", 0%float); ("hour", 0%float);
         ("second", 0%float)] /\
  (0%float : @pyfloat runtime) = fzero.
Proof.
  split; [evaluate|].
  refine (@cold_start_returns_zero runtime [7] ∅ ∅ false (start hey_timer)
            (@predict runtime [7] ∅ ∅ false (start hey_timer)).1
            [("hey", 0%float); ("minute", 0%float); ("hour", 0%float);
             ("second", 0%float)] _ _ "hour" 0%float _).
  - intros l. unfold buffer, start, hey_timer, instance.
    cbn [self prediction_buffer registry]. rewrite lookup_empty.
    change (registry_of ["models/hey.onnx"; "models/timer.onnx"])
      with [("hey", hey_entry); ("timer", timer_entry)].
    cbn. lia.
  - evaluate.
  - right. right. left.
Defined.

End ClipCountExamples.

(** ** The registry that [__init__] builds *)

Section Init.
Context `{RT : Runtime}.

Lemma load_model_returns mdl_path (reg reg' : odict ModelEntry) :
  load_model mdl_path reg = inr reg' <->
  exists e, built_from mdl_path e /\
            reg' = Dict.set (mdl_name_of mdl_path) e reg.
Proof.
  unfold load_model, built_from. cbn zeta. split.
  - destruct (ort_InferenceSession mdl_path) as [err|sess]; [done|].
    cbn [rbind].
    destruct (Py.contains _ (list_ascii_of_string (output_name sess))) eqn:Hc.
    + destruct (json_loads (output_name sess)) as [err|d] eqn:Hd; [done|].
      cbn [rbind]. intros [= <-]. eexists. split; [|reflexivity].
      cbn [models model_inputs model_outputs model_input_names class_mapping].
      rewrite Hc. repeat split. by exists d.
    + cbn [rbind]. intros [= <-]. eexists. split; [|reflexivity].
      cbn [models model_inputs model_outputs model_input_names class_mapping].
      by rewrite Hc.
  - intros ([sess n_in n_out mapping inp] & (Hs & Hin & Hout & Hinp & Hmap) & ->).
    cbn [models model_inputs model_outputs model_input_names class_mapping] in *.
    rewrite Hs. cbn [rbind]. subst n_in n_out inp.
    destruct (Py.contains _ (list_ascii_of_string (output_name sess))).
    + destruct Hmap as (d & -> & ->). done.
    + by rewrite Hmap.
Qed.

Lemma load_model_raises mdl_path (reg : odict ModelEntry) err :
  load_model mdl_path reg = inl err <-> fails_with mdl_path err.
Proof.
  unfold load_model, fails_with. cbn zeta.
  destruct (ort_InferenceSession mdl_path) as [err0|sess]; cbn [rbind].
  - split; [intros [= ->]; by left|].
    intros [[= ->]|(sess & Hs & _)]; done.
  - destruct (Py.contains _ (list_ascii_of_string (output_name sess))) eqn:Hc.
    + destruct (json_loads (output_name sess)) as [err0|d] eqn:Hd; cbn [rbind].
      * split.
        -- intros [= ->]. right. by exists sess.
        -- intros [?|(sess' & [= <-] & _ & Hd')]; [done|]. congruence.
      * split; [done|].
        intros [?|(sess' & [= <-] & _ & Hd')]; [done|]. congruence.
    + cbn [rbind]. split; [done|].
      intros [?|(sess' & [= <-] & Hc' & _)]; [done|]. congruence.
Qed.

Lemma elem_of_dict_set_eq {V} (k : string) (v : V) (d : odict V) :
  (k, v) ∈ Dict.set k v d.
Proof.
  induction d as [|[k0 v0] d IH]; cbn [Dict.set]; [left|].
  destruct (String.eqb_spec k k0) as [->|Hne]; [left|by right].
Qed.

Lemma filter_not_elem_of_nil (names : list string) :
  filter (fun n => n ∉ ([] : list string)) names = names.
Proof.
  induction names as [|n l IH]; [done|].
  rewrite filter_cons_True by apply not_elem_of_nil. by rewrite IH.
Qed.

Lemma first_occurrences_filter (ks names : list string) (n : string) :
  n ∈ ks ->
  filter (fun x => x ∉ ks) (filter (fun n' => n' <> n) names)
  = filter (fun x => x ∉ ks) names.
Proof.
  intros Hn. induction names as [|x names IH]; [done|].
  destruct (decide (x = n)) as [->|Hne].
  - rewrite (filter_cons_False (fun n' => n' <> n)) by (intros H; by apply H).
    rewrite (filter_cons_False (fun x => x ∉ ks)) by (intros H; by apply H).
    done.
  - rewrite (filter_cons_True (fun n' => n' <> n)) by done.
    destruct (decide (x ∈ ks)) as [Hin|Hout].
    + rewrite !(filter_cons_False (fun x => x ∉ ks)) by (intros H; by apply H).
      done.
    + rewrite !(filter_cons_True (fun x => x ∉ ks)) by done. by f_equal.
Qed.

Lemma first_occurrences_filter_new (ks names : list string) (n : string) :
  filter (fun x => x ∉ ks ++ [n]) names
  = filter (fun x => x ∉ ks) (filter (fun n' => n' <> n) names).
Proof.
  induction names as [|x names IH]; [done|].
  destruct (decide (x = n)) as [->|Hne].
  - rewrite (filter_cons_False (fun n' => n' <> n)) by (intros H; by apply H).
    rewrite filter_cons_False; [done|].
    intros H. apply H, elem_of_app. right. left.
  - rewrite (filter_cons_True (fun n' => n' <> n)) by done.
    destruct (decide (x ∈ ks)) as [Hin|Hout].
    + rewrite (filter_cons_False (fun x => x ∉ ks)) by (intros H; by apply H).
      rewrite filter_cons_False; [done|].
      intros H. apply H, elem_of_app. by left.
    + rewrite (filter_cons_True (fun x => x ∉ ks)) by done.
      rewrite filter_cons_True; [by f_equal|].
      rewrite elem_of_app, list_elem_of_singleton. tauto.
Qed.

(** The keys after the loop of [__init__]: those there before, then the new
    names in the order of their first occurrence. *)
Lemma load_models_keys paths (reg reg' : odict ModelEntry) :
  load_models paths reg = inr reg' ->
  Dict.keys reg'
  = Dict.keys reg
    ++ filter (fun n => n ∉ Dict.keys reg)
         (first_occurrences (map mdl_name_of paths)).
Proof.
  revert reg. induction paths as [|p rest IH]; intros reg Hload;
    cbn [load_models] in Hload.
  - injection Hload as <-. cbn. by rewrite app_nil_r.
  - destruct (load_model p reg) as [err|reg1] eqn:H1; [done|].
    cbn [rbind] in Hload.
    apply load_model_returns in H1 as (e & _ & ->).
    rewrite (IH _ Hload). cbn [map first_occurrences].
    destruct (decide (mdl_name_of p ∈ Dict.keys reg)) as [Hin|Hout].
    + rewrite keys_set_in by done.
      rewrite filter_cons_False by (intros H; by apply H).
      by rewrite first_occurrences_filter.
    + rewrite keys_set_fresh by done.
      rewrite filter_cons_True by done.
      rewrite first_occurrences_filter_new, <- app_assoc. done.
Qed.

(** Each entry after the loop was there before and has not been assigned
    again, or was built from the last path of its name. *)
Lemma load_models_entries paths (reg reg' : odict ModelEntry) :
  NoDup (Dict.keys reg) ->
  load_models paths reg = inr reg' ->
  NoDup (Dict.keys reg') /\
  forall name e, (name, e) ∈ reg' ->
    ((name, e) ∈ reg /\ (name ∉ map mdl_name_of paths)) \/
    exists l1 p l2,
      paths = l1 ++ p :: l2 /\ mdl_name_of p = name /\
      (name ∉ map mdl_name_of l2) /\ built_from p e.
Proof.
  revert reg. induction paths as [|p rest IH]; intros reg Hnd Hload;
    cbn [load_models] in Hload.
  - injection Hload as <-. split; [done|]. intros name e Hin. left.
    split; [done|]. cbn. apply not_elem_of_nil.
  - destruct (load_model p reg) as [err|reg1] eqn:H1; [done|].
    cbn [rbind] in Hload.
    apply load_model_returns in H1 as (e1 & Hbuilt & ->).
    pose proof (NoDup_keys_set (mdl_name_of p) e1 reg Hnd) as Hnd1.
    destruct (IH _ Hnd1 Hload) as [Hnd' Hent]. split; [done|].
    intros name e Hin.
    destruct (Hent name e Hin) as [[Hin1 Hout]|(l1 & q & l2 & -> & Hq & Hl2 & Hb)].
    + destruct (decide (name = mdl_name_of p)) as [->|Hne].
      * right. exists [], p, rest. split; [done|]. split; [done|].
        split; [done|].
        pose proof (elem_of_dict_set_eq (mdl_name_of p) e1 reg) as Hin0.
        by rewrite (NoDup_keys_functional _ _ _ _ Hnd1 Hin1 Hin0).
      * left. apply elem_of_set in Hin1 as [[? ?]|Hin1]; [done|].
        split; [done|]. cbn [map]. by apply not_elem_of_cons.
    + right. exists (p :: l1), q, l2. done.
Qed.

(** X15: the instance that [__init__] returns holds one entry for each name
    derived from the paths, in the order in which the names first occur;
    the entry of a name is the one built from the last path of that name, a
    path of the same name given earlier leaving no trace but the place of
    the key; and no score is buffered yet. *)
Theorem Model_init_registry paths pre m :
  Model_init paths pre = inr m ->
  Dict.keys (registry m) = first_occurrences (map mdl_name_of paths) /\
  NoDup (Dict.keys (registry m)) /\
  (forall name e, (name, e) ∈ registry m ->
     exists l1 p l2,
       paths = l1 ++ p :: l2 /\ mdl_name_of p = name /\
       (name ∉ map mdl_name_of l2) /\ built_from p e) /\
  prediction_buffer m = ∅ /\ preprocessor m = pre.
Proof.
  unfold Model_init. destruct (load_models paths []) as [err|reg] eqn:Hload;
    [done|]. cbn [rbind]. intros [= <-].
  cbn [registry prediction_buffer preprocessor].
  pose proof (load_models_keys _ _ _ Hload) as Hkeys.
  destruct (load_models_entries paths [] reg (NoDup_nil_2) Hload)
    as [Hnd Hent].
  split; [|split; [done|split; [|done]]].
  - rewrite Hkeys. cbn [Dict.keys map app]. apply filter_not_elem_of_nil.
  - intros name e Hin. destruct (Hent name e Hin) as [[Hnil _]|H]; [|done].
    by apply elem_of_nil in Hnil.
Qed.

End Init.

Section InitFailure.
Context `{RT : Runtime}.

(** A loop of [__init__] that runs to its end has built every path. *)
Lemma load_models_built paths (reg reg' : odict ModelEntry) p :
  load_models paths reg = inr reg' -> p ∈ paths ->
  exists e, built_from p e.
Proof.
  revert reg. induction paths as [|q rest IH]; intros reg Hload Hin;
    cbn [load_models] in Hload.
  - by apply elem_of_nil in Hin.
  - destruct (load_model q reg) as [err|reg1] eqn:H1; [done|].
    cbn [rbind] in Hload.
    apply elem_of_cons in Hin as [->|Hin]; [|by eapply IH].
    apply load_model_returns in H1 as (e & Hb & _). by exists e.
Qed.

(** X16: when the session of some path of the list cannot be opened, or the
    output name of some session holds a brace and does not decode,
    [__init__] raises, wherever the path stands in the list: no instance is
    returned for the paths that do load. *)
Theorem Model_init_rejects_bad_path paths pre p err :
  p ∈ paths -> fails_with p err ->
  exists err', Model_init paths pre = inl err'.
Proof.
  intros Hin Hfail. unfold Model_init.
  destruct (load_models paths []) as [err'|reg] eqn:Hload; cbn [rbind];
    [by exists err'|].
  exfalso. destruct (load_models_built _ _ _ _ Hload Hin) as [e Hb].
  apply (load_model_raises p []) in Hfail.
  assert (load_model p [] = inr (Dict.set (mdl_name_of p) e []))
    as H2 by (apply load_model_returns; by exists e).
  congruence.
Qed.

End InitFailure.

Section InitExamples.
Import Demo.
#[local] Set Warnings "-inexact-float".

(** The path of "hey" given twice, around the path of "timer": two entries,
    "hey" first. *)
Lemma Model_init_registry_witness :
  Dict.keys
    (registry
       (instance ["models/hey.onnx"; "models/timer.onnx"; "models/hey.onnx"] ∅))
  = first_occurrences
      (map mdl_name_of
         ["models/hey.onnx"; "models/timer.onnx"; "models/hey.onnx"]).
Proof.
  destruct (@Model_init_registry runtime
              ["models/hey.onnx"; "models/timer.onnx"; "models/hey.onnx"] []
              (instance
                 ["models/hey.onnx"; "models/timer.onnx"; "models/hey.onnx"] ∅))
    as [Hkeys _]; [evaluate|exact Hkeys].
Defined.

(** A path that cannot be opened after one that can. *)
Lemma Model_init_rejects_bad_path_witness :
  exists err',
    @Model_init runtime ["models/hey.onnx"; "models/nope.onnx"] []
    = inl err'.
Proof.
  apply (@Model_init_rejects_bad_path runtime
           ["models/hey.onnx"; "models/nope.onnx"] [] "models/nope.onnx"
           LoadError).
  - right. left.
  - left. reflexivity.
Defined.

End InitExamples.

(** ** What a timed call prints *)

Section TimedOutput.
Context `{RT : Runtime}.

Lemma head_keys_set {V} (k k0 : string) (v : V) (d : odict V) :
  head (Dict.keys d) = Some k0 -> head (Dict.keys (Dict.set k v d)) = Some k0.
Proof.
  destruct d as [|[k1 v1] d]; [done|]. cbn [Dict.set].
  by destruct (String.eqb k k1).
Qed.

Lemma run_model_trace mdl e acc s :
  match run_model true mdl e acc s with
  | (s', inr acc') =>
      stdout s' = stdout s /\ clock s' = S (S (clock s)) /\
      forall k, head (Dict.keys acc.2) = Some k ->
                head (Dict.keys acc'.2) = Some k
  | (s', inl _) => stdout s' = stdout s
  end.
Proof.
  destruct acc as [predictions timing_dict].
  unfold run_model, bind, stamp, time, ret, get_self, lift,
    update_prediction_buffer, bind, get_self, put_self, ret.
  cbn [self clock stdout prediction_buffer preprocessor registry].
  destruct (assign_scores _ _ _ _) as [err|assigned]; [done|].
  destruct (update_buffer assigned _) as [p2 buf2].
  cbn [self clock stdout fst snd]. split; [done|]. split; [done|].
  intros k. apply head_keys_set.
Qed.

Lemma run_models_trace entries acc s :
  match run_models true entries acc s with
  | (s', inr acc') =>
      stdout s' = stdout s /\
      clock s' = (clock s + 2 * length entries)%nat /\
      forall k, head (Dict.keys acc.2) = Some k ->
                head (Dict.keys acc'.2) = Some k
  | (s', inl _) => stdout s' = stdout s
  end.
Proof.
  revert acc s. induction entries as [|[mdl e] rest IH]; intros acc s;
    cbn [run_models].
  - unfold ret. split; [done|]. split; [cbn; lia|done].
  - unfold bind. pose proof (run_model_trace mdl e acc s) as H1.
    destruct (run_model true mdl e acc s) as [s1 [err|acc1]]; [done|].
    destruct H1 as (Hout1 & Hclock1 & Hhead1).
    specialize (IH acc1 s1).
    destruct (run_models true rest acc1 s1) as [s2 [err|acc2]].
    + congruence.
    + destruct IH as (Hout2 & Hclock2 & Hhead2).
      split; [congruence|]. split; [cbn [length]; lia|]. auto.
Qed.

(** The debounce step works on the scores alone. *)
Lemma debounce_state patience threshold predictions s :
  (debounce patience threshold predictions s).1 = s.
Proof.
  unfold debounce. destruct (nonempty patience); [|done].
  destruct (negb (nonempty threshold)); [done|].
  unfold bind, get_self, lift. by destruct (apply_patience _ _ _ _).
Qed.

(** Sorting the entries keeps the keys and puts them in order. *)
Lemma insert_sorted_keys {V} (k k0 : string) (v : V) (items : odict V) :
  k0 ∈ Dict.keys (Py.insert_sorted k v items) <->
  k0 = k \/ k0 ∈ Dict.keys items.
Proof.
  induction items as [|[k' v'] rest IH]; cbn [Py.insert_sorted].
  - cbn. rewrite list_elem_of_singleton, elem_of_nil. tauto.
  - destruct (String.leb k k'); cbn [Dict.keys map fst] in *.
    + by rewrite elem_of_cons.
    + rewrite !elem_of_cons, IH. tauto.
Qed.

Lemma sorted_items_keys {V} (k0 : string) (items : odict V) :
  k0 ∈ Dict.keys (Py.sorted_items items) <-> k0 ∈ Dict.keys items.
Proof.
  induction items as [|[k v] rest IH]; [done|].
  cbn [Py.sorted_items fold_right fst snd].
  rewrite insert_sorted_keys. fold (Py.sorted_items rest). rewrite IH.
  cbn [Dict.keys map fst]. by rewrite elem_of_cons.
Qed.

Lemma insert_sorted_length {V} (k : string) (v : V) (items : odict V) :
  length (Py.insert_sorted k v items) = S (length items).
Proof.
  induction items as [|[k' v'] rest IH]; [done|]. cbn [Py.insert_sorted].
  destruct (String.leb k k'); cbn [length]; [done|]. by rewrite IH.
Qed.

Lemma sorted_items_length {V} (items : odict V) :
  length (Py.sorted_items items) = length items.
Proof.
  induction items as [|[k v] rest IH]; [done|].
  cbn [Py.sorted_items fold_right fst snd]. fold (Py.sorted_items rest).
  by rewrite insert_sorted_length, IH.
Qed.

Lemma insert_sorted_Sorted {V} (k : string) (v : V) (items : odict V) :
  Sorted (fun a b => String.leb a b = true) (Dict.keys items) ->
  Sorted (fun a b => String.leb a b = true)
    (Dict.keys (Py.insert_sorted k v items)).
Proof.
  induction items as [|[k' v'] rest IH]; intros Hs; cbn [Py.insert_sorted].
  - cbn. by repeat constructor.
  - destruct (String.leb k k') eqn:Hle; cbn [Dict.keys map fst] in *.
    + constructor; [done|]. by constructor.
    + apply Sorted_inv in Hs as [Hrest Hhd]. constructor; [by apply IH|].
      assert (String.leb k' k = true) as Hge
        by (destruct (String.leb_total k k'); congruence).
      destruct rest as [|[k2 v2] rest]; cbn [Py.insert_sorted].
      * by constructor.
      * apply HdRel_inv in Hhd. by destruct (String.leb k k2); constructor.
Qed.

Lemma sorted_items_Sorted {V} (items : odict V) :
  Sorted (fun a b => String.leb a b = true)
    (Dict.keys (Py.sorted_items items)).
Proof.
  induction items as [|[k v] rest IH]; [constructor|].
  cbn [Py.sorted_items fold_right fst snd]. by apply insert_sorted_Sorted.
Qed.

Lemma length_set {V} (k : string) (v : V) (d : odict V) :
  (length (Dict.set k v d) <= S (length d))%nat.
Proof.
  induction d as [|[k' v'] d IH]; cbn [Dict.set]; [done|].
  destruct (String.eqb k k'); cbn [length]; lia.
Qed.

(** The timings of a pass over the models: one entry more at most for each
    model. *)
Lemma run_models_timings_length timing entries acc s s' acc' :
  run_models timing entries acc s = (s', inr acc') ->
  (length acc'.2 <= length acc.2 + length entries)%nat.
Proof.
  revert acc s. induction entries as [|[mdl e] rest IH];
    intros [predictions timing_dict] s Hrun; cbn [run_models] in Hrun.
  - injection Hrun as <- <-. cbn. lia.
  - unfold bind in Hrun.
    destruct (run_model timing mdl e _ s) as [s1 [err|acc1]] eqn:H1; [done|].
    apply IH in Hrun. cbn [length snd] in *.
    assert (length acc1.2 <= S (length timing_dict))%nat as Hstep; [|lia].
    revert H1. unfold run_model, bind, stamp, time, ret, get_self, lift,
      update_prediction_buffer, bind, get_self, put_self, ret.
    destruct timing.
    all: destruct (assign_scores _ _ _ _) as [err|assigned]; [done|].
    all: destruct (update_buffer assigned _) as [p2 buf2].
    all: intros [= _ <-]; cbn [snd].
    + apply length_set.
    + lia.
Qed.

(** X17: a [predict] call with [timing] that returns prints one dictionary,
    after everything printed before: its one key is "models", under which
    the timings come with their keys in sorted order, "preprocessor" among
    them, one entry at most for each registered model besides; the call
    reads the clock twice for the features and twice for each registered
    model. A call that raises prints nothing, the timings taken are lost. *)
Theorem timed_predict_prints_once x patience threshold s :
  match predict x patience threshold true s with
  | (s2, inr _) =>
      (exists timings,
          stdout s2 = stdout s ++ [[("models", timings)]] /\
          "preprocessor" ∈ Dict.keys timings /\
          Sorted (fun a b => String.leb a b = true) (Dict.keys timings) /\
          (length timings <= S (length (registry (self s))))%nat) /\
      clock s2 = (clock s + 2 + 2 * length (registry (self s)))%nat
  | (s2, inl _) => stdout s2 = stdout s
  end.
Proof.
  unfold predict, bind at 1.
  assert (match score_frame x true s with
          | (s1, inr acc) =>
              stdout s1 = stdout s /\
              clock s1 = (clock s + 2 + 2 * length (registry (self s)))%nat /\
              head (Dict.keys acc.2) = Some "preprocessor" /\
              (length acc.2 <= S (length (registry (self s))))%nat
          | (s1, inl _) => stdout s1 = stdout s
          end) as Hscore.
  { unfold score_frame, bind, stamp, time, ret, get_self, put_self.
    cbn [self clock stdout prediction_buffer preprocessor registry].
    match goal with
    | |- context [run_models true ?entries ?acc ?s0] =>
        pose proof (run_models_trace entries acc s0) as H;
        pose proof (run_models_timings_length true entries acc s0) as Hlen;
        destruct (run_models true entries acc s0) as [s1 [err|acc1]]
    end; [done|].
    destruct H as (Hout & Hclock & Hhead). cbn [stdout clock] in *.
    specialize (Hlen s1 acc1 eq_refl). cbn [snd length] in Hlen.
    split; [done|]. split; [lia|]. split; [by apply Hhead|lia]. }
  destruct (score_frame x true s) as [s1 [err|[predictions timing_dict]]];
    [done|].
  destruct Hscore as (Hout & Hclock & Hhead & Hlen). cbn [snd] in Hhead, Hlen.
  cbn beta iota zeta. unfold bind.
  pose proof (debounce_state patience threshold predictions s1) as Hdeb.
  destruct (debounce patience threshold predictions s1) as [s2 [err|r]];
    cbn [fst] in Hdeb; subst s2; [done|].
  unfold pprint, ret. cbn [stdout clock]. split; [|done].
  exists (Py.sorted_items timing_dict). rewrite Hout. split; [done|].
  split; [|split].
  - apply sorted_items_keys. destruct (Dict.keys timing_dict) as [|k ks];
      [done|]. injection Hhead as ->. left.
  - apply sorted_items_Sorted.
  - by rewrite sorted_items_length.
Qed.

End TimedOutput.

(** ** Patience under a name that is no parent *)

Section ForeignPatience.
Context `{RT : Runtime}.

Lemma score_frame_registry x timing s :
  registry (self (score_frame x timing s).1) = registry (self s).
Proof.
  pose proof (score_frame_kept (fun m => registry m = registry (self s))
                x timing ltac:(by intros m Hm) s eq_refl) as H.
  by destruct (score_frame x timing s) as [s' [e|p]].
Qed.

Lemma debounce_rule_no_patience m patience threshold l v :
  get_parent_model_from_label m l ∉ dom patience ->
  debounce_rule m patience threshold l v = v.
Proof.
  intros Hout. unfold debounce_rule. cbn zeta.
  by rewrite (proj1 (not_elem_of_dom _ _) Hout).
Qed.

(** X18: when no label of a registered model has a parent that is a key of
    [patience] -- the keys are labels of a multi-class model, or misspelt,
    say -- and [threshold] is not empty, the call behaves as the call
    without patience does: same outcome, same state. *)
Theorem patience_of_no_parent_is_ignored x patience threshold timing s :
  threshold <> ∅ ->
  (forall mdl e l,
      (mdl, e) ∈ registry (self s) -> l ∈ labels_of mdl e ->
      get_parent_model_from_label (self s) l ∉ dom patience) ->
  predict x patience threshold timing s = predict x ∅ ∅ timing s.
Proof.
  intros Hthr Hforeign.
  pose proof (score_frame_registry x timing s) as Hreg.
  destruct (score_frame x timing s) as [s1 [err|[predictions timing_dict]]]
    eqn:Hscore.
  { by rewrite !(predict_scoring_raises _ _ _ _ _ _ _ Hscore). }
  rewrite !(predict_after_scoring _ _ _ _ _ _ _ _ Hscore).
  cbn [fst] in Hreg.
  assert (debounce patience threshold predictions s1
          = debounce ∅ ∅ predictions s1) as ->; [|done].
  unfold debounce at 2.
  rewrite (proj2 (nonempty_false (∅ : gmap string Z))) by done.
  unfold debounce. destruct (nonempty patience); [|done].
  rewrite (proj2 (nonempty_true threshold)) by done. cbn [negb].
  unfold bind, get_self, lift, ret.
  assert (forall l, l ∈ Dict.keys predictions ->
            get_parent_model_from_label (self s1) l ∉ dom patience) as Hout.
  { intros l Hl.
    destruct (score_frame_returns_keys _ _ _ _ _ Hscore) as [Hkeys _].
    apply Hkeys in Hl as (mdl & e & Hin & Hlab).
    unfold get_parent_model_from_label. rewrite Hreg.
    by apply (Hforeign mdl e l). }
  rewrite apply_patience_covered.
  - do 2 f_equal. clear Hscore. induction predictions as [|[l v] rest IH];
      [done|]. cbn [map fst snd].
    rewrite debounce_rule_no_patience by (apply Hout; left).
    f_equal. apply IH. intros l' Hl'. apply Hout. by right.
  - intros l Hl Hp. by destruct (Hout l Hl).
Qed.

End ForeignPatience.

Section ForeignPatienceExamples.
Import Demo.
#[local] Set Warnings "-inexact-float".

(** A patience under the label "hour" of the model "timer". *)
Lemma patience_of_no_parent_is_ignored_witness :
  @predict runtime [7] {[ "hour" := 3 ]} {[ "hour" := 0.5%float ]} false
    (start hey_timer)
  = @predict runtime [7] ∅ ∅ false (start hey_timer).
Proof.
  apply (@patience_of_no_parent_is_ignored runtime [7] {[ "hour" := 3 ]}
           {[ "hour" := 0.5%float ]} false (start hey_timer)).
  - intros H. apply (f_equal (fun t => t !! "hour")) in H.
    by rewrite lookup_singleton_eq, lookup_empty in H.
  - intros mdl e l Hin Hl.
    change (registry (self (start hey_timer)))
      with [("hey", hey_entry); ("timer", timer_entry)] in Hin.
    rewrite dom_singleton_L, not_elem_of_singleton.
    apply elem_of_cons in Hin as [Heq|Hin].
    + injection Heq as -> ->. apply list_elem_of_singleton in Hl as ->.
      discriminate.
    + apply list_elem_of_singleton in Hin. injection Hin as -> ->.
      cbn in Hl. rewrite !elem_of_cons, elem_of_nil in Hl.
      destruct Hl as [->|[->|[->|[]]]]; discriminate.
Defined.

End ForeignPatienceExamples.

(** ** How often a call appends to the buffer of a label *)

Section AppendsPerLabel.
Context `{RT : Runtime}.

(** One pass over a model appends once to the buffer of every label scored
    so far, and leaves the other buffers alone. *)
Lemma run_model_appends timing mdl e predictions timing_dict s s' acc' :
  NoDup (Dict.keys predictions) ->
  run_model timing mdl e (predictions, timing_dict) s = (s', inr acc') ->
  NoDup (Dict.keys acc'.1) /\
  (forall l, l ∈ Dict.keys acc'.1 <->
             l ∈ Dict.keys predictions \/ l ∈ labels_of mdl e) /\
  (forall l, l ∈ Dict.keys acc'.1 ->
     length (buffer (self s') l)
     = Nat.min maxlen (S (length (buffer (self s) l)))) /\
  (forall l, l ∉ Dict.keys acc'.1 -> buffer (self s') l = buffer (self s) l).
Proof.
  intros Hnd Hrun.
  destruct (run_model_returns _ _ _ _ _ _ _ _ Hrun)
    as (assigned & Hassign & Hupd & _ & _).
  pose proof (assign_scores_NoDup _ _ _ _ _ Hnd Hassign) as Hnd1.
  pose proof (update_buffer_keys assigned (prediction_buffer (self s))) as Hk.
  pose proof (fun l v => update_buffer_lookup assigned
                           (prediction_buffer (self s)) l v Hnd1) as Hlookup.
  pose proof (fun l => update_buffer_other assigned
                         (prediction_buffer (self s)) l) as Hother.
  rewrite <- Hupd in Hk, Hlookup, Hother. cbn [fst snd] in Hk, Hlookup, Hother.
  rewrite Hk. split; [done|]. split; [|split].
  - intros l. by apply (assign_scores_keys _ _ _ _ _ Hassign).
  - intros l Hl. apply list_elem_of_fmap in Hl as ([l0 v] & -> & Hin).
    cbn [fst]. destruct (Hlookup l0 v Hin) as [_ Hl0]. unfold buffer.
    rewrite Hl0. cbn [default from_option id]. apply append_score_length.
  - intros l Hl. unfold buffer. by rewrite Hother.
Qed.

(** A label already scored is appended to once for each model still to
    run. *)
Lemma run_models_appends_scored timing entries acc s s' acc' l :
  NoDup (Dict.keys acc.1) -> l ∈ Dict.keys acc.1 ->
  (length (buffer (self s) l) <= maxlen)%nat ->
  run_models timing entries acc s = (s', inr acc') ->
  length (buffer (self s') l)
  = Nat.min maxlen (length (buffer (self s) l) + length entries).
Proof.
  revert acc s. induction entries as [|[mdl e] rest IH];
    intros [predictions timing_dict] s Hnd Hl Hlen Hrun;
    cbn [run_models] in Hrun.
  - injection Hrun as <- <-. cbn [length]. lia.
  - unfold bind in Hrun.
    destruct (run_model timing mdl e _ s) as [s1 [err|acc1]] eqn:H1; [done|].
    destruct (run_model_appends _ _ _ _ _ _ _ _ Hnd H1)
      as (Hnd1 & Hkeys1 & Happ1 & _).
    assert (l ∈ Dict.keys acc1.1) as Hl1 by (apply Hkeys1; by left).
    specialize (Happ1 l Hl1).
    rewrite (IH acc1 s1 Hnd1 Hl1 ltac:(lia) Hrun), Happ1. cbn [length].
    unfold maxlen. lia.
Qed.

(** A label not scored yet is appended to for the first model that scores
    it and for each model after it. *)
Lemma run_models_appends_new timing before mdl e after acc s s' acc' l :
  NoDup (Dict.keys acc.1) -> l ∉ Dict.keys acc.1 ->
  (forall mdl' e', (mdl', e') ∈ before -> l ∉ labels_of mdl' e') ->
  l ∈ labels_of mdl e ->
  run_models timing (before ++ (mdl, e) :: after) acc s = (s', inr acc') ->
  length (buffer (self s') l)
  = Nat.min maxlen (length (buffer (self s) l) + S (length after)).
Proof.
  revert acc s. induction before as [|[mdl0 e0] before IH];
    intros [predictions timing_dict] s Hnd Hl Hbefore Hlab Hrun;
    cbn [app run_models] in Hrun; unfold bind in Hrun.
  - destruct (run_model timing mdl e _ s) as [s1 [err|acc1]] eqn:H1; [done|].
    destruct (run_model_appends _ _ _ _ _ _ _ _ Hnd H1)
      as (Hnd1 & Hkeys1 & Happ1 & _).
    assert (l ∈ Dict.keys acc1.1) as Hl1 by (apply Hkeys1; by right).
    specialize (Happ1 l Hl1).
    rewrite (run_models_appends_scored timing after acc1 s1 s' acc' l Hnd1 Hl1
               ltac:(lia) Hrun).
    rewrite Happ1. unfold maxlen. lia.
  - destruct (run_model timing mdl0 e0 _ s) as [s1 [err|acc1]] eqn:H1; [done|].
    destruct (run_model_appends _ _ _ _ _ _ _ _ Hnd H1)
      as (Hnd1 & Hkeys1 & _ & Hother1).
    assert (l ∉ Dict.keys acc1.1) as Hl1.
    { rewrite Hkeys1. intros [?|Hin]; [done|].
      by apply (Hbefore mdl0 e0 ltac:(left)). }
    rewrite <- (Hother1 l Hl1).
    apply (IH acc1 s1); try done.
    intros mdl' e' Hin. apply Hbefore. by right.
Qed.

(** X19: in a returning [predict] call, the buffer of a label is appended
    to once for the first registered model that scores the label and once
    more for every model registered after that one: with [after] the models
    registered after it, the buffer grows by [1 + len(after)] entries, up to
    its 30 places. *)
Theorem label_appended_for_each_later_model x patience threshold timing s
    s2 result before mdl e after l :
  predict x patience threshold timing s = (s2, inr result) ->
  registry (self s) = before ++ (mdl, e) :: after ->
  (forall mdl' e', (mdl', e') ∈ before -> l ∉ labels_of mdl' e') ->
  l ∈ labels_of mdl e ->
  length (buffer (self s2) l)
  = Nat.min maxlen (length (buffer (self s) l) + S (length after)).
Proof.
  intros Hret Hreg Hbefore Hlab.
  destruct (predict_returns_scored _ _ _ _ _ _ _ Hret)
    as (s1 & predictions & timing_dict & Hscore).
  assert (self s2 = self s1) as ->.
  { pose proof (predict_self x patience threshold timing s) as H.
    by rewrite Hret, Hscore in H. }
  clear Hret. revert Hscore.
  unfold score_frame, bind, stamp, time, ret, get_self, put_self.
  destruct timing;
    cbn [self clock stdout prediction_buffer preprocessor registry];
    rewrite Hreg; intros Hrun.
  all: eapply run_models_appends_new in Hrun; [exact Hrun|..]; try done.
  all: cbn; try constructor; apply not_elem_of_nil.
Qed.

End AppendsPerLabel.

Section AppendsPerLabelExamples.
Import Demo.
#[local] Set Warnings "-inexact-float".

(** "hey" is registered before "timer": one frame, two entries. *)
Lemma label_appended_for_each_later_model_witness :
  length (buffer (self (@predict runtime [7] ∅ ∅ false (start hey_timer)).1)
            "hey")
  = Nat.min maxlen (length (buffer (self (start hey_timer)) "hey") + 2).
Proof.
  apply (@label_appended_for_each_later_model runtime [7] ∅ ∅ false
           (start hey_timer)
           (@predict runtime [7] ∅ ∅ false (start hey_timer)).1
           [("hey", 0%float); ("minute", 0%float); ("hour", 0%float);
            ("second", 0%float)]
           [] "hey" hey_entry [("timer", timer_entry)] "hey").
  - evaluate.
  - reflexivity.
  - intros mdl' e' Hin. by apply elem_of_nil in Hin.
  - left.
Defined.

End AppendsPerLabelExamples.
